(** * BoxFit client (frontend/src/App.js): a shallow embedding

    The React component [App] is modelled as a record of its state hooks and
    refs, its event handlers as computations in a small state-and-error
    monad over that record, and the closures that React memoises with
    [useCallback] by the values they captured when they were created. *)

From Stdlib Require Import ZArith QArith Qround Qminmax Qabs Qpower Lia Lqa.
From stdpp Require Import base list gmap strings.

Local Open Scope Z_scope.
Local Open Scope string_scope.

(** ** Data model *)

(** A shape is an array of rows of numbers; a sub-cell is filled when its
    entry [=== 1].  Rows may have different lengths, as in JavaScript. *)
Abbreviation Shape := (list (list Z)).

(** A grid cell is [null] ([None]) or an object of which the client reads
    the colour. *)
Record Cell := { cell_color : string }.

Abbreviation Grid := (list (list (option Cell))).

(** A piece object.  [color], [type] and [id] may be absent ([undefined]):
    the catalog has no [id], and [{...null, shape}] has only a shape. *)
Record Piece := {
  shape : Shape;
  color : option string;
  type : option string;
  id : option Z
}.

Record Player := { player_color : string; connected : bool }.

Record GameState := {
  grid : Grid;
  players : gmap string Player;
  score : Z;
  nextPiece : option Piece;
  gs_playerName : option string;
  gs_playerColor : option string
}.

(** JavaScript numbers are IEEE 754 doubles.  A finite double is a rational,
    and the pixel coordinates below are those rationals. *)
Record DragState := { isDragging : bool; startX : Q; startY : Q }.

Record Position := { pos_x : Q; pos_y : Q }.

(** What [getBoundingClientRect] yields for the grid element. *)
Record DOMRect := { rect_left : Q; rect_top : Q }.

(** Where the grid element lies when the game screen is first laid out.  The
    place depends on the viewport; a [Layout] event moves the element to any
    other place before the first mouse event, so this choice excludes no
    behaviour. *)
Definition initialLayout : DOMRect := {| rect_left := 0; rect_top := 0 |}.

Record MouseEvent := { clientX : Q; clientY : Q }.

(** Messages the client passes to [WebSocket.send]. *)
Inductive ClientMessage :=
| rotate_piece (s : Shape)
| place_piece (s : Shape) (position_x position_y : Z) (c : option string).

(** Messages the server delivers to [onmessage], by their [type] tag, as
    [JSON.parse] returns them; a frame that does not parse is outside this
    model. *)
Inductive ServerMessage :=
| game_state (data : GameState)
| player_joined (data_players : gmap string Player)
| player_left (data_players : gmap string Player)
| piece_placed (data_grid : Grid) (data_score : Z) (data_next_piece : option Piece)
| piece_rotated (data_shape : Shape)
| other_message (tag : string).

(** The socket stored in [wsRef.current]: its URL, the log of [send] calls,
    and the value of [currentPiece] that its [onmessage] closure captured
    when [connectToGame] installed it. *)
Record Socket := {
  url : string;
  sent : list ClientMessage;
  onmessage_currentPiece : option Piece
}.

(** The component: state hooks, refs, and the [currentPiece] captured by the
    memoised [connectToGame] callback (its dependency list is
    [roomId, playerName, WS_URL], so it is re-created only when one of those
    changes). *)
Record App := {
  gameState : GameState;
  roomId : string;
  playerName : string;
  isConnected : bool;
  currentPiece : option Piece;
  dragState : DragState;
  piecePosition : Position;
  isValidPlacement : bool;
  wsRef : option Socket;
  gridRef : option DOMRect;
  connectToGame_currentPiece : option Piece
}.

(** ** The piece catalog *)

Definition TETRIS_PIECES : list (string * Piece) :=
  [ ("I", {| shape := [[1; 1; 1; 1]]; color := Some "#00FFFF"; type := None; id := None |});
    ("O", {| shape := [[1; 1]; [1; 1]]; color := Some "#FFFF00"; type := None; id := None |});
    ("T", {| shape := [[0; 1; 0]; [1; 1; 1]]; color := Some "#800080"; type := None; id := None |});
    ("L", {| shape := [[1; 0; 0]; [1; 1; 1]]; color := Some "#FFA500"; type := None; id := None |});
    ("J", {| shape := [[0; 0; 1]; [1; 1; 1]]; color := Some "#0000FF"; type := None; id := None |});
    ("S", {| shape := [[0; 1; 1]; [1; 1; 0]]; color := Some "#00FF00"; type := None; id := None |});
    ("Z", {| shape := [[1; 1; 0]; [0; 1; 1]]; color := Some "#FF0000"; type := None; id := None |}) ].

(** ** State-and-error monad of the handlers *)

Inductive Completion (A : Type) :=
| Normal (a : A)
| Throw (e : string)
| OutOfFuel.
Arguments Normal {A} a.
Arguments Throw {A} e.
Arguments OutOfFuel {A}.

Definition M (A : Type) : Type := App -> Completion A * App.

Definition ret {A} (a : A) : M A := fun st => (Normal a, st).

Definition bind {A B} (m : M A) (k : A -> M B) : M B :=
  fun st =>
    match m st with
    | (Normal a, st') => k a st'
    | (Throw e, st') => (Throw e, st')
    | (OutOfFuel, st') => (OutOfFuel, st')
    end.

Definition throw {A} (e : string) : M A := fun st => (Throw e, st).
Definition out_of_fuel {A} : M A := fun st => (OutOfFuel, st).
Definition gets {A} (f : App -> A) : M A := fun st => (Normal (f st), st).
Definition modify (f : App -> App) : M unit := fun st => (Normal tt, f st).

Notation "'do' x <- m ; k" := (bind m (fun x => k))
  (at level 10, x name, m at level 100, k at level 200).
Notation "m ;; k" := (bind m (fun _ => k))
  (at level 100, k at level 200, right associativity).

(** State setters ([useState] setters and ref assignments). *)

Definition setGameState (f : GameState -> GameState) : M unit :=
  modify (fun st =>
    {| gameState := f (gameState st); roomId := roomId st; playerName := playerName st;
       isConnected := isConnected st; currentPiece := currentPiece st;
       dragState := dragState st; piecePosition := piecePosition st;
       isValidPlacement := isValidPlacement st; wsRef := wsRef st; gridRef := gridRef st;
       connectToGame_currentPiece := connectToGame_currentPiece st |}).

Definition setRoomId (v : string) : M unit :=
  modify (fun st =>
    {| gameState := gameState st; roomId := v; playerName := playerName st;
       isConnected := isConnected st; currentPiece := currentPiece st;
       dragState := dragState st; piecePosition := piecePosition st;
       isValidPlacement := isValidPlacement st; wsRef := wsRef st; gridRef := gridRef st;
       connectToGame_currentPiece := connectToGame_currentPiece st |}).

Definition setPlayerName (v : string) : M unit :=
  modify (fun st =>
    {| gameState := gameState st; roomId := roomId st; playerName := v;
       isConnected := isConnected st; currentPiece := currentPiece st;
       dragState := dragState st; piecePosition := piecePosition st;
       isValidPlacement := isValidPlacement st; wsRef := wsRef st; gridRef := gridRef st;
       connectToGame_currentPiece := connectToGame_currentPiece st |}).

Definition setIsConnected (v : bool) : M unit :=
  modify (fun st =>
    {| gameState := gameState st; roomId := roomId st; playerName := playerName st;
       isConnected := v; currentPiece := currentPiece st;
       dragState := dragState st; piecePosition := piecePosition st;
       isValidPlacement := isValidPlacement st; wsRef := wsRef st; gridRef := gridRef st;
       connectToGame_currentPiece := connectToGame_currentPiece st |}).

Definition setCurrentPiece (f : option Piece -> option Piece) : M unit :=
  modify (fun st =>
    {| gameState := gameState st; roomId := roomId st; playerName := playerName st;
       isConnected := isConnected st; currentPiece := f (currentPiece st);
       dragState := dragState st; piecePosition := piecePosition st;
       isValidPlacement := isValidPlacement st; wsRef := wsRef st; gridRef := gridRef st;
       connectToGame_currentPiece := connectToGame_currentPiece st |}).

Definition setDragState (v : DragState) : M unit :=
  modify (fun st =>
    {| gameState := gameState st; roomId := roomId st; playerName := playerName st;
       isConnected := isConnected st; currentPiece := currentPiece st;
       dragState := v; piecePosition := piecePosition st;
       isValidPlacement := isValidPlacement st; wsRef := wsRef st; gridRef := gridRef st;
       connectToGame_currentPiece := connectToGame_currentPiece st |}).

Definition setPiecePosition (v : Position) : M unit :=
  modify (fun st =>
    {| gameState := gameState st; roomId := roomId st; playerName := playerName st;
       isConnected := isConnected st; currentPiece := currentPiece st;
       dragState := dragState st; piecePosition := v;
       isValidPlacement := isValidPlacement st; wsRef := wsRef st; gridRef := gridRef st;
       connectToGame_currentPiece := connectToGame_currentPiece st |}).

Definition setIsValidPlacement (v : bool) : M unit :=
  modify (fun st =>
    {| gameState := gameState st; roomId := roomId st; playerName := playerName st;
       isConnected := isConnected st; currentPiece := currentPiece st;
       dragState := dragState st; piecePosition := piecePosition st;
       isValidPlacement := v; wsRef := wsRef st; gridRef := gridRef st;
       connectToGame_currentPiece := connectToGame_currentPiece st |}).

Definition set_wsRef (v : option Socket) : M unit :=
  modify (fun st =>
    {| gameState := gameState st; roomId := roomId st; playerName := playerName st;
       isConnected := isConnected st; currentPiece := currentPiece st;
       dragState := dragState st; piecePosition := piecePosition st;
       isValidPlacement := isValidPlacement st; wsRef := v; gridRef := gridRef st;
       connectToGame_currentPiece := connectToGame_currentPiece st |}).

Definition set_gridRef (v : option DOMRect) : M unit :=
  modify (fun st =>
    {| gameState := gameState st; roomId := roomId st; playerName := playerName st;
       isConnected := isConnected st; currentPiece := currentPiece st;
       dragState := dragState st; piecePosition := piecePosition st;
       isValidPlacement := isValidPlacement st; wsRef := wsRef st; gridRef := v;
       connectToGame_currentPiece := connectToGame_currentPiece st |}).

(** [wsRef.current.send(JSON.stringify(msg))]: appended to the socket's log. *)
Definition ws_send (msg : ClientMessage) : M unit :=
  do ws <- gets wsRef;
  match ws with
  | Some s =>
      set_wsRef (Some {| url := url s; sent := sent s ++ [msg];
                         onmessage_currentPiece := onmessage_currentPiece s |})
  | None => throw "TypeError: wsRef.current is null"
  end.

(** ** Arithmetic on doubles *)

(** The integer nearest to [r], the even one of the two when [r] lies half
    way between them. *)
Definition nearest_even (r : Q) : Z :=
  let f := Qfloor r in
  match (r - inject_Z f ?= 1 # 2)%Q with
  | Lt => f
  | Gt => f + 1
  | Eq => if Z.even f then f else f + 1
  end.

(** The binary exponent of a positive rational: [2 ^ e <= q < 2 ^ (e + 1)]. *)
Definition exponent (q : Q) : Z :=
  let k := Z.log2 (Qnum q) - Z.log2 (Z.pos (Qden q)) in
  if Qle_bool (2 ^ k)%Q q then k else k - 1.

(** Rounding to the nearest double: a significand of 53 bits, ties to even.
    The exponent is not bounded, so overflow to [Infinity] and the
    subnormal range are outside the model; pixel coordinates are far from
    both. *)
Definition round53 (q : Q) : Q :=
  if Qeq_bool q 0 then 0%Q
  else
    let ulp := (2 ^ (exponent (Qabs q) - 52))%Q in
    Qred (inject_Z (nearest_even (q / ulp)) * ulp)%Q.

(** [a - b] on doubles: the exact difference, rounded. *)
Definition double_sub (a b : Q) : Q := round53 (a - b).
Arguments double_sub : simpl never.

(** ** checkValidPlacement *)

(** [Math.floor(p / 40)].  The quotient of a double [p] by 40 is rounded
    before the floor is taken, which does not move it across an integer:
    rounding is monotone and the integers in reach are doubles. *)
Definition cellOf (p : Q) : Z := Qfloor (p / 40).

(** [gameState.grid[gridY] && gameState.grid[gridY][gridX] !== null]: a
    missing row is falsy; a missing cell is [undefined], which is not
    [null]. *)
Definition occupied (g : Grid) (gridX gridY : Z) : bool :=
  match g !! Z.to_nat gridY with
  | None => false
  | Some r =>
      match r !! Z.to_nat gridX with
      | Some None => false
      | Some (Some _) => true
      | None => true
      end
  end.

(** The inner [for] loop from column [col] on.  [Some b] means that
    [return b] was executed, [None] that the loop ran to its end. *)
Fixpoint checkValidPlacement_cols (fuel : nat) (shape : Shape) (x y : Q) (row col : nat)
  : M (option bool) :=
  match fuel with
  | O => out_of_fuel
  | S fuel' =>
      match shape !! row with
      | None => throw "TypeError: shape[row] is undefined"
      | Some cells =>
          if (col <? length cells)%nat then
            if bool_decide (cells !! col = Some 1) then
              let gridX := cellOf x + Z.of_nat col in
              let gridY := cellOf y + Z.of_nat row in
              if ((gridX <? 0) || (gridX >=? 10) || (gridY <? 0) || (gridY >=? 10))%Z then
                ret (Some false)
              else
                do g <- gets (fun st => grid (gameState st));
                if occupied g gridX gridY then ret (Some false)
                else checkValidPlacement_cols fuel' shape x y row (S col)
            else checkValidPlacement_cols fuel' shape x y row (S col)
          else ret None
      end
  end.

(** The outer [for] loop from row [row] on. *)
Fixpoint checkValidPlacement_rows (fuel : nat) (shape : Shape) (x y : Q) (row : nat)
  : M (option bool) :=
  match fuel with
  | O => out_of_fuel
  | S fuel' =>
      if (row <? length shape)%nat then
        do r <- checkValidPlacement_cols
                  (S (from_option length O (shape !! row))) shape x y row 0;
        match r with
        | Some b => ret (Some b)
        | None => checkValidPlacement_rows fuel' shape x y (S row)
        end
      else ret None
  end.

Definition checkValidPlacement (shape : Shape) (x y : Q) : M bool :=
  do r <- checkValidPlacement_rows (S (length shape)) shape x y 0;
  match r with
  | Some b => ret b
  | None => ret true
  end.

(** ** Event handlers *)

Section Client.

(** [WS_URL] is derived from the build-time environment. *)
Variable WS_URL : string.

(** [connectToGame]: [roomId] and [playerName] are dependencies of the
    callback, so the values it sees are the current ones; [currentPiece] is
    not, so the [onmessage] closure it creates sees the piece that was held
    when the callback was last re-created.

    [new WebSocket(wsUrl)] is taken to accept the URL.  A URL that the
    constructor rejects with a [SyntaxError] (one with a fragment, or with a
    scheme it does not know) is outside this model, so nothing below says
    that a join completes normally once the guard is passed. *)
Definition connectToGame : M unit :=
  do room <- gets roomId;
  do name <- gets playerName;
  do ws <- gets wsRef;
  if bool_decide (room = "") || bool_decide (name = "") || bool_decide (is_Some ws) then ret tt
  else
    do captured <- gets connectToGame_currentPiece;
    set_wsRef (Some {| url := WS_URL +:+ "/api/ws/" +:+ room +:+ "/" +:+ name;
                       sent := [];
                       onmessage_currentPiece := captured |}).

Definition joinGame : M unit :=
  do room <- gets roomId;
  do name <- gets playerName;
  if negb (bool_decide (room = "")) && negb (bool_decide (name = "")) then connectToGame
  else ret tt.

Definition onopen : M unit := setIsConnected true.

(** [{...prev, shape: s}]; spreading [null] contributes no property. *)
Definition spread_shape (prev : option Piece) (s : Shape) : Piece :=
  match prev with
  | Some p => {| shape := s; color := color p; type := type p; id := id p |}
  | None => {| shape := s; color := None; type := None; id := None |}
  end.

(** [onmessage], closed over [captured], the [currentPiece] of the render
    that created [connectToGame]. *)
Definition onmessage (captured : option Piece) (message : ServerMessage) : M unit :=
  match message with
  | game_state data => setGameState (fun _ => data)
  | player_joined ps | player_left ps =>
      setGameState (fun prev =>
        {| grid := grid prev; players := ps; score := score prev;
           nextPiece := nextPiece prev; gs_playerName := gs_playerName prev;
           gs_playerColor := gs_playerColor prev |})
  | piece_placed g sc np =>
      setGameState (fun prev =>
        {| grid := g; players := players prev; score := sc;
           nextPiece := np; gs_playerName := gs_playerName prev;
           gs_playerColor := gs_playerColor prev |});;
      setCurrentPiece (fun _ => None)
  | piece_rotated s =>
      match captured with
      | Some _ => setCurrentPiece (fun prev => Some (spread_shape prev s))
      | None => ret tt
      end
  | other_message _ => ret tt
  end.

Definition onclose : M unit :=
  setIsConnected false;;
  set_wsRef None.

(** [onerror] only logs to the console and has no counterpart here. *)

(** [getNewPiece]; [now] is the value of [Date.now()]. *)
Definition getNewPiece (now : Z) : M unit :=
  do np <- gets (fun st => nextPiece (gameState st));
  match np with
  | Some p =>
      setCurrentPiece (fun _ =>
        Some {| shape := shape p; color := color p; type := type p; id := Some now |})
  | None => ret tt
  end.

Definition rotatePiece : M unit :=
  do cp <- gets currentPiece;
  do ws <- gets wsRef;
  match cp, ws with
  | Some p, Some _ => ws_send (rotate_piece (shape p))
  | _, _ => ret tt
  end.

Definition handleMouseDown (e : MouseEvent) : M unit :=
  do cp <- gets currentPiece;
  match cp with
  | None => ret tt
  | Some _ =>
      setDragState {| isDragging := true; startX := clientX e; startY := clientY e |};;
      do gr <- gets gridRef;
      match gr with
      | Some rect =>
          let x := double_sub (double_sub (clientX e) (rect_left rect)) 20 in
          let y := double_sub (double_sub (clientY e) (rect_top rect)) 20 in
          setPiecePosition {| pos_x := Qmax 0 x; pos_y := Qmax 0 y |}
      | None => ret tt
      end
  end.

Definition handleMouseMove (e : MouseEvent) : M unit :=
  do ds <- gets dragState;
  do cp <- gets currentPiece;
  do gr <- gets gridRef;
  match isDragging ds, cp, gr with
  | true, Some p, Some rect =>
      let x := double_sub (double_sub (clientX e) (rect_left rect)) 20 in
      let y := double_sub (double_sub (clientY e) (rect_top rect)) 20 in
      let clampedX := Qmax 0 (Qmin x 360) in
      let clampedY := Qmax 0 (Qmin y 360) in
      setPiecePosition {| pos_x := clampedX; pos_y := clampedY |};;
      do isValid <- checkValidPlacement (shape p) clampedX clampedY;
      setIsValidPlacement isValid
  | _, _, _ => ret tt
  end.

Definition handleMouseUp (e : MouseEvent) : M unit :=
  do ds <- gets dragState;
  do cp <- gets currentPiece;
  match isDragging ds, cp with
  | true, Some p =>
      setDragState {| isDragging := false; startX := 0; startY := 0 |};;
      do gr <- gets gridRef;
      match gr with
      | Some rect =>
          let x := double_sub (clientX e) (rect_left rect) in
          let y := double_sub (clientY e) (rect_top rect) in
          let gridX := cellOf x in
          let gridY := cellOf y in
          do ok <- checkValidPlacement (shape p) x y;
          do ws <- gets wsRef;
          if ok && bool_decide (is_Some ws) then
            ws_send (place_piece (shape p) gridX gridY (color p))
          else ret tt
      | None => ret tt
      end;;
      setPiecePosition {| pos_x := 0; pos_y := 0 |};;
      setIsValidPlacement true
  | _, _ => ret tt
  end.

(** ** The component as a transition system *)

(** Besides the events the component handles, [Layout] stands for the browser
    laying the page out again (a scroll, a resize): from then on
    [gridRef.current.getBoundingClientRect()] yields [rect]. *)

Inductive Event :=
| ChangeRoomId (v : string)
| ChangePlayerName (v : string)
| ClickJoin
| SocketOpen
| SocketMessage (message : ServerMessage)
| SocketClose
| ClickGetPiece (now : Z)
| ClickRotate
| MouseDown (e : MouseEvent)
| MouseMove (e : MouseEvent)
| MouseUp (e : MouseEvent)
| Layout (rect : DOMRect).

Definition handler (ev : Event) : M unit :=
  match ev with
  | ChangeRoomId v => setRoomId v
  | ChangePlayerName v => setPlayerName v
  | ClickJoin => joinGame
  | SocketOpen => onopen
  | SocketMessage message =>
      do ws <- gets wsRef;
      match ws with
      | Some s => onmessage (onmessage_currentPiece s) message
      | None => ret tt
      end
  | SocketClose => onclose
  | ClickGetPiece now => getNewPiece now
  | ClickRotate => rotatePiece
  | MouseDown e => handleMouseDown e
  | MouseMove e => handleMouseMove e
  | MouseUp e => handleMouseUp e
  | Layout rect =>
      do gr <- gets gridRef;
      match gr with
      | Some _ => set_gridRef (Some rect)
      | None => ret tt
      end
  end.

(** [ref={gridRef}] on the grid element of the game screen: when a render
    is committed React sets [gridRef.current] to the element if the game
    screen is shown ([isConnected]) and to [null] if the join screen is. *)
Definition attach_gridRef (after : App) : option DOMRect :=
  if isConnected after then
    match gridRef after with
    | Some rect => Some rect
    | None => Some initialLayout
    end
  else None.

(** The render after an event.  [useCallback] keeps the previous
    [connectToGame] unless [roomId] or [playerName] changed, in which case
    the new callback closes over the state of this render; the commit
    attaches or clears [gridRef]. *)
Definition rerender (before after : App) : App :=
  {| gameState := gameState after; roomId := roomId after; playerName := playerName after;
     isConnected := isConnected after; currentPiece := currentPiece after;
     dragState := dragState after; piecePosition := piecePosition after;
     isValidPlacement := isValidPlacement after; wsRef := wsRef after;
     gridRef := attach_gridRef after;
     connectToGame_currentPiece :=
       if bool_decide (roomId before = roomId after /\ playerName before = playerName after)
       then connectToGame_currentPiece after
       else currentPiece after |}.

Definition dispatch (st : App) (ev : Event) : App :=
  rerender st (snd (handler ev st)).

Definition run (st : App) (evs : list Event) : App := foldl dispatch st evs.

End Client.

(** The first render: the initial values of the hooks. *)
Definition initialApp : App :=
  {| gameState :=
       {| grid := replicate 10 (replicate 10 None); players := ∅; score := 0;
          nextPiece := None; gs_playerName := Some ""; gs_playerColor := Some "" |};
     roomId := ""; playerName := ""; isConnected := false; currentPiece := None;
     dragState := {| isDragging := false; startX := 0; startY := 0 |};
     piecePosition := {| pos_x := 0; pos_y := 0 |};
     isValidPlacement := true; wsRef := None; gridRef := None;
     connectToGame_currentPiece := None |}.

(** ** Specification vocabulary *)

(** The sub-cell [(r, c)] of [shape] is filled. *)
Definition filled (shape : Shape) (r c : nat) : Prop :=
  exists cells, shape !! r = Some cells /\ cells !! c = Some 1.

Definition is_10x10 (g : Grid) : Prop :=
  length g = 10%nat /\ Forall (fun r => length r = 10%nat) g.

(** The grid cell at [(row, col)] exists and holds [null]. *)
Definition empty_at (g : Grid) (row col : Z) : Prop :=
  exists cells, g !! Z.to_nat row = Some cells /\ cells !! Z.to_nat col = Some None.

(** What the claim asks of a filled sub-cell, with the origin cell
    [(cellOf y, cellOf x)]. *)
Definition fits (g : Grid) (x y : Q) (r c : nat) : Prop :=
  let row := cellOf y + Z.of_nat r in
  let col := cellOf x + Z.of_nat c in
  0 <= row < 10 /\ 0 <= col < 10 /\ empty_at g row col.

(** The two tests of the loop body, for the sub-cell [(row, col)]. *)
Definition admits (g : Grid) (x y : Q) (row col : nat) : bool :=
  let gridX := cellOf x + Z.of_nat col in
  let gridY := cellOf y + Z.of_nat row in
  negb ((gridX <? 0) || (gridX >=? 10) || (gridY <? 0) || (gridY >=? 10))%Z
  && negb (occupied g gridX gridY).

(** The loops as folds over the rows and cells that remain. *)
Fixpoint cols_free (g : Grid) (x y : Q) (row col : nat) (cells : list Z) : bool :=
  match cells with
  | [] => true
  | v :: rest =>
      (if bool_decide (v = 1) then admits g x y row col else true)
      && cols_free g x y row (S col) rest
  end.

Fixpoint rows_free (g : Grid) (x y : Q) (row : nat) (rows : Shape) : bool :=
  match rows with
  | [] => true
  | cells :: rest => cols_free g x y row 0 cells && rows_free g x y (S row) rest
  end.

(** The log of [send] calls of the current socket. *)
Definition sent_log (st : App) : list ClientMessage :=
  match wsRef st with
  | Some s => sent s
  | None => []
  end.

(** Every field of the state other than [currentPiece] is the same. *)
Definition same_except_currentPiece (st st' : App) : Prop :=
  gameState st' = gameState st /\ roomId st' = roomId st /\
  playerName st' = playerName st /\ isConnected st' = isConnected st /\
  dragState st' = dragState st /\ piecePosition st' = piecePosition st /\
  isValidPlacement st' = isValidPlacement st /\ wsRef st' = wsRef st /\
  gridRef st' = gridRef st /\
  connectToGame_currentPiece st' = connectToGame_currentPiece st.

(** A well-formed catalog shape: at least one row, all rows of one positive
    length, every entry 0 or 1. *)
Definition well_formed (s : Shape) : Prop :=
  s <> [] /\
  (exists cols : nat, (0 < cols)%nat /\ Forall (fun r => length r = cols) s) /\
  Forall (Forall (fun v => v = 0 \/ v = 1)) s.

(** ** Rotation *)

(** A [rows] x [cols] matrix, and its cell at [(r, c)]. *)
Definition is_matrix {A} (rows cols : nat) (m : list (list A)) : Prop :=
  length m = rows /\ Forall (fun r => length r = cols) m.

Definition cell {A} (m : list (list A)) (r c : nat) : option A :=
  match m !! r with
  | Some cells => cells !! c
  | None => None
  end.

(** Modelled from the spec: column [c] of a matrix, top to bottom; the
    building block of the transposition the spec's rotation starts with (the
    server code that rotates is not part of this repository's sources). *)
Definition column {A} (m : list (list A)) (c : nat) : list A :=
  omap (fun cells => cells !! c) m.

(** The number of columns is read off the first row. *)
Definition width {A} (m : list (list A)) : nat :=
  match m with
  | [] => O
  | cells :: _ => length cells
  end.

(** Modelled from the spec: the transposition step of the rotation. *)
Definition transpose {A} (m : list (list A)) : list (list A) :=
  column m <$> seq 0 (width m).

(** Modelled from the spec: the rotation is done by the server, whose code is
    not part of this repository's sources; the spec defines it as a fixed
    90-degree step, transpose followed by row-reverse, under which a
    [rows] x [cols] shape becomes [cols] x [rows]. *)
Definition rotate {A} (m : list (list A)) : list (list A) :=
  reverse <$> transpose m.

(** The four rotational states of a shape, and those of the catalog. *)
Definition rotations (s : Shape) : list Shape :=
  [s; rotate s; rotate (rotate s); rotate (rotate (rotate s))].

Definition rotational_states : list Shape :=
  concat ((fun entry => rotations (shape (snd entry))) <$> TETRIS_PIECES).

(** Every boundary row and column of the shape holds a filled sub-cell. *)
Definition has_filled (cells : list Z) : bool := existsb (fun v => v =? 1)%Z cells.

Definition boundaries_filled (s : Shape) : bool :=
  match s with
  | [] => false
  | top :: _ =>
      has_filled top
      && has_filled (from_option (fun cells => cells) [] (last s))
      && has_filled (omap head s)
      && has_filled (omap last s)
  end.

(** ** Sample states *)

Definition sampleGrid : Grid :=
  <[2%nat := <[3%nat := Some {| cell_color := "#FF0000" |}]> (replicate 10 None)]>
    (replicate 10 (replicate 10 None)).

Definition pieceT : Piece :=
  {| shape := [[0; 1; 0]; [1; 1; 1]]; color := Some "#800080";
     type := Some "T"; id := None |}.

(** A connected client that drags a held T piece over [sampleGrid]. *)
Definition draggingApp : App :=
  {| gameState :=
       {| grid := sampleGrid; players := ∅; score := 4;
          nextPiece := Some pieceT; gs_playerName := None; gs_playerColor := None |};
     roomId := "room"; playerName := "ann"; isConnected := true;
     currentPiece :=
       Some {| shape := shape pieceT; color := color pieceT; type := type pieceT;
               id := Some 1700000000000 |};
     dragState := {| isDragging := true; startX := 120; startY := 130 |};
     piecePosition := {| pos_x := 25; pos_y := 65 |};
     isValidPlacement := true;
     wsRef := Some {| url := "ws://host/api/ws/room/ann"; sent := [];
                      onmessage_currentPiece := None |};
     gridRef := Some {| rect_left := 100; rect_top := 50 |};
     connectToGame_currentPiece := None |}.

(** A fresh client joins a room, is offered [offered], claims it, and then
    receives [piece_rotated] with the shape [rotated]. *)
Definition first_session (offered : Piece) (now : Z) (rotated : Shape) : list Event :=
  [ ChangeRoomId "room"; ChangePlayerName "ann"; ClickJoin; SocketOpen;
    SocketMessage (game_state
      {| grid := replicate 10 (replicate 10 None); players := ∅; score := 0;
         nextPiece := Some offered; gs_playerName := None; gs_playerColor := None |});
    ClickGetPiece now;
    SocketMessage (piece_rotated rotated) ].

(** The same client goes on: the page is scrolled so that the grid lies at
    (100, 50), and the claimed piece is pressed and dragged. *)
Definition drag_session (offered : Piece) (now : Z) : list Event :=
  [ ChangeRoomId "room"; ChangePlayerName "ann"; ClickJoin; SocketOpen;
    SocketMessage (game_state
      {| grid := replicate 10 (replicate 10 None); players := ∅; score := 0;
         nextPiece := Some offered; gs_playerName := None; gs_playerColor := None |});
    ClickGetPiece now;
    Layout {| rect_left := 100; rect_top := 50 |};
    MouseDown {| clientX := 120; clientY := 130 |};
    MouseMove {| clientX := 145; clientY := 135 |} ].

(** The drag ends with a release over the grid. *)
Definition release_session (offered : Piece) (now : Z) : list Event :=
  (drag_session offered now ++ [MouseUp {| clientX := 145; clientY := 135 |}])%list.

(** A connected client that drags a held I piece over the empty grid, the
    grid element lying at [rect]. *)
Definition draggingI (rect : DOMRect) : App :=
  {| gameState :=
       {| grid := replicate 10 (replicate 10 None); players := ∅; score := 0;
          nextPiece := None; gs_playerName := None; gs_playerColor := None |};
     roomId := "room"; playerName := "ann"; isConnected := true;
     currentPiece :=
       Some {| shape := [[1; 1; 1; 1]]; color := Some "#00FFFF"; type := Some "I";
               id := Some 1700000000000 |};
     dragState := {| isDragging := true; startX := 0; startY := 0 |};
     piecePosition := {| pos_x := 0; pos_y := 0 |};
     isValidPlacement := true;
     wsRef := Some {| url := "ws://host/api/ws/room/ann"; sent := [];
                      onmessage_currentPiece := None |};
     gridRef := Some rect;
     connectToGame_currentPiece := None |}.

(** ** The first session of a page load *)

(** What the rendered page lets the user, the socket and the browser do: the
    join form is shown while not connected, the game screen (grid, Get
    Piece, Rotate) while connected; Get Piece is disabled while a piece is
    held; socket events need a socket; mouse moves and releases are heard on
    the document; the grid is laid out while it is shown. *)
Definition enabled (st : App) (ev : Event) : bool :=
  match ev with
  | ChangeRoomId _ | ChangePlayerName _ | ClickJoin => negb (isConnected st)
  | SocketOpen | SocketMessage _ | SocketClose => bool_decide (is_Some (wsRef st))
  | ClickGetPiece _ => isConnected st && bool_decide (currentPiece st = None)
  | ClickRotate => isConnected st && bool_decide (is_Some (currentPiece st))
  | MouseDown _ | Layout _ => isConnected st
  | MouseMove _ | MouseUp _ => true
  end.

(** The states a freshly loaded client passes through until its socket
    closes for the first time. *)
Inductive first_session_state (WS_URL : string) : App -> Prop :=
| first_session_initial : first_session_state WS_URL initialApp
| first_session_step (st : App) (ev : Event) :
    first_session_state WS_URL st ->
    enabled st ev = true ->
    ev <> SocketClose ->
    first_session_state WS_URL (dispatch WS_URL st ev).

(** No closure has captured a held piece, and no piece is held on the join
    screen. *)
Definition captures_nothing (st : App) : Prop :=
  connectToGame_currentPiece st = None /\
  (forall s : Socket, wsRef st = Some s -> onmessage_currentPiece s = None) /\
  (isConnected st = false -> currentPiece st = None).

(** ** Further vocabulary *)

(** A position is free when the grid has no row there, or the row holds
    [null] at the column. *)
Definition free_at (g : Grid) (row col : Z) : Prop :=
  g !! Z.to_nat row = None \/ empty_at g row col.

(** Every field of the state other than [wsRef] is the same. *)
Definition same_except_wsRef (st st' : App) : Prop :=
  gameState st' = gameState st /\ roomId st' = roomId st /\
  playerName st' = playerName st /\ isConnected st' = isConnected st /\
  currentPiece st' = currentPiece st /\
  dragState st' = dragState st /\ piecePosition st' = piecePosition st /\
  isValidPlacement st' = isValidPlacement st /\
  gridRef st' = gridRef st /\
  connectToGame_currentPiece st' = connectToGame_currentPiece st.

(** [gridRef] is as the last commit left it: set exactly while the game
    screen is shown. *)
Definition mounted (st : App) : Prop := attach_gridRef st = gridRef st.

(** The states the page can reach from its first render. *)
Inductive reachable (WS_URL : string) : App -> Prop :=
| reachable_initial : reachable WS_URL initialApp
| reachable_step (st : App) (ev : Event) :
    reachable WS_URL st ->
    enabled st ev = true ->
    reachable WS_URL (dispatch WS_URL st ev).

(** ** The socket URL *)

(** The string without its first [n] characters. *)
Fixpoint skip (n : nat) (s : string) : string :=
  match n, s with
  | O, _ => s
  | S n', String _ s' => skip n' s'
  | S _, EmptyString => EmptyString
  end.

(** [s.replace(pattern, replacement)] for a string pattern and a replacement
    without [$]: the first occurrence of the pattern, if any, is replaced. *)
Fixpoint replace (pattern replacement s : string) : string :=
  if String.prefix pattern s
  then String.append replacement (skip (String.length pattern) s)
  else
    match s with
    | EmptyString => EmptyString
    | String ch s' => String ch (replace pattern replacement s')
    end.

(** The pattern occurs somewhere in the string. *)
Fixpoint occurs (pattern s : string) : bool :=
  String.prefix pattern s ||
  match s with
  | EmptyString => false
  | String _ s' => occurs pattern s'
  end.

(** [WS_URL], computed from [BACKEND_URL]. *)
Definition WS_URL_of (BACKEND_URL : string) : string :=
  replace "http://" "ws://" (replace "https://" "wss://" BACKEND_URL).

(** ** Rendering *)

(** A grid cell element: its key (row and column) and the two style
    properties. *)
Record GridCellView := {
  gc_row : nat;
  gc_col : nat;
  gc_backgroundColor : string;
  gc_borderColor : string
}.

(** The element pushed for [cell = gameState.grid[row][col]], where a
    missing cell is [undefined] and, like [null], falsy. *)
Definition grid_cell_view (cells : list (option Cell)) (row col : nat) : GridCellView :=
  match cells !! col with
  | Some (Some c) =>
      {| gc_row := row; gc_col := col;
         gc_backgroundColor := cell_color c; gc_borderColor := "#444" |}
  | _ =>
      {| gc_row := row; gc_col := col;
         gc_backgroundColor := "transparent"; gc_borderColor := "#333" |}
  end.

(** The inner loop of [renderGrid] from column [col] on; [acc] is the array
    built so far. *)
Fixpoint renderGrid_cols (fuel : nat) (row col : nat) (acc : list GridCellView)
  : M (list GridCellView) :=
  match fuel with
  | O => out_of_fuel
  | S fuel' =>
      if (col <? 10)%nat then
        do g <- gets (fun st => grid (gameState st));
        match g !! row with
        | None => throw "TypeError: gameState.grid[row] is undefined"
        | Some cells =>
            renderGrid_cols fuel' row (S col) (acc ++ [grid_cell_view cells row col])
        end
      else ret acc
  end.

Fixpoint renderGrid_rows (fuel : nat) (row : nat) (acc : list GridCellView)
  : M (list GridCellView) :=
  match fuel with
  | O => out_of_fuel
  | S fuel' =>
      if (row <? 10)%nat then
        do acc' <- renderGrid_cols 11 row 0 acc;
        renderGrid_rows fuel' (S row) acc'
      else ret acc
  end.

Definition renderGrid : M (list GridCellView) := renderGrid_rows 11 0 [].

(** A piece cell element: its key (row and column index), the class name
    passed in, and its style. *)
Record PieceCellView := {
  pv_row : nat;
  pv_col : nat;
  pv_className : string;
  pv_left : Q;
  pv_top : Q;
  pv_size : Q;
  pv_backgroundColor : option string;
  pv_opacity : Q;
  pv_borderColor : option string
}.

(** The element pushed for a filled sub-cell. *)
Definition piece_cell_view (piece : Piece) (offsetX offsetY : Q) (className : string)
    (isNextPiece valid : bool) (rowIndex colIndex : nat) : PieceCellView :=
  let size := if isNextPiece then 30%Q else 40%Q in
  {| pv_row := rowIndex; pv_col := colIndex; pv_className := className;
     pv_left := (offsetX + inject_Z (Z.of_nat colIndex) * size)%Q;
     pv_top := (offsetY + inject_Z (Z.of_nat rowIndex) * size)%Q;
     pv_size := size;
     pv_backgroundColor := color piece;
     pv_opacity :=
       if bool_decide (className = "dragging")
       then (if valid then 8 # 10 else 4 # 10)%Q else 1%Q;
     pv_borderColor :=
       if bool_decide (className = "dragging")
       then (if valid then color piece else Some "#ff4444") else color piece |}.

(** [row.forEach((cell, colIndex) => ...)] from index [colIndex] on. *)
Fixpoint renderPiece_row (view : nat -> PieceCellView) (colIndex : nat) (row : list Z)
    (cells : list PieceCellView) : list PieceCellView :=
  match row with
  | [] => cells
  | cell :: rest =>
      renderPiece_row view (S colIndex) rest
        (if bool_decide (cell = 1) then cells ++ [view colIndex] else cells)
  end.

(** [piece.shape.forEach((row, rowIndex) => ...)] from index [rowIndex] on. *)
Fixpoint renderPiece_rows (view : nat -> nat -> PieceCellView) (rowIndex : nat)
    (rows : Shape) (cells : list PieceCellView) : list PieceCellView :=
  match rows with
  | [] => cells
  | row :: rest =>
      renderPiece_rows view (S rowIndex) rest
        (renderPiece_row (view rowIndex) 0 row cells)
  end.

(** [renderPiece(piece, position, className, isNextPiece)]; [None] is the
    [null] returned for a missing piece. *)
Definition renderPiece (piece : option Piece) (position : Position) (className : string)
    (isNextPiece : bool) : M (option (list PieceCellView)) :=
  match piece with
  | None => ret None
  | Some p =>
      let shapeWidth :=
        match shape p with
        | first :: _ => length first
        | [] => O
        end in
      let shapeHeight := length (shape p) in
      let offsetX :=
        if isNextPiece then ((120 - inject_Z (Z.of_nat shapeWidth) * 30) / 2)%Q
        else pos_x position in
      let offsetY :=
        if isNextPiece then ((120 - inject_Z (Z.of_nat shapeHeight) * 30) / 2)%Q
        else pos_y position in
      do valid <- gets isValidPlacement;
      ret (Some (renderPiece_rows
                   (piece_cell_view p offsetX offsetY className isNextPiece valid)
                   0 (shape p) []))
  end.

(** Unfold the render that follows a handler and settle the invariant on
    the resulting record. *)
Ltac settle_render :=
  unfold rerender; cbn -[checkValidPlacement cellOf];
  try match goal with H : wsRef _ = _ |- _ => rewrite ?H end;
  cbn -[checkValidPlacement cellOf];
  rewrite ?bool_decide_eq_true_2 by (split; reflexivity);
  unfold captures_nothing; cbn -[checkValidPlacement cellOf];
  repeat split; auto;
  try (intros; simplify_eq; cbn; eauto); try discriminate; try congruence;
  try (match goal with H : currentPiece _ = _ |- _ => rewrite H end; auto).

(** ** checkValidPlacement: the loops compute the folds *)

Lemma checkValidPlacement_cols_run (shape : Shape) (x y : Q) (row : nat) (cells : list Z) :
  shape !! row = Some cells ->
  forall (fuel col : nat) (st : App),
    (length cells - col < fuel)%nat ->
    checkValidPlacement_cols fuel shape x y row col st =
    (Normal (if cols_free (grid (gameState st)) x y row col (drop col cells)
             then None else Some false), st).
Proof.
  intros Hrow. induction fuel as [|fuel IH]; intros col st Hfuel; [lia|].
  cbn [checkValidPlacement_cols]. rewrite Hrow.
  destruct (Nat.ltb_spec col (length cells)) as [Hlt|Hge].
  - destruct (lookup_lt_is_Some_2 cells col Hlt) as [v Hv].
    rewrite (drop_S _ _ _ Hv). cbn [cols_free]. rewrite Hv.
    assert (Hdec : bool_decide (Some v = Some 1) = bool_decide (v = 1)).
    { apply bool_decide_ext. split; congruence. }
    rewrite Hdec. destruct (bool_decide (v = 1)).
    + unfold admits.
      destruct (_ || _ || _ || _)%bool; [reflexivity|].
      unfold bind, gets. cbn [negb andb].
      destruct (occupied _ _ _); [reflexivity|].
      cbn [negb andb]. apply IH. lia.
    + cbn [andb]. apply IH. lia.
  - rewrite drop_ge by lia. reflexivity.
Qed.

Lemma checkValidPlacement_rows_run (shape : Shape) (x y : Q) :
  forall (fuel row : nat) (st : App),
    (length shape - row < fuel)%nat ->
    checkValidPlacement_rows fuel shape x y row st =
    (Normal (if rows_free (grid (gameState st)) x y row (drop row shape)
             then None else Some false), st).
Proof.
  induction fuel as [|fuel IH]; intros row st Hfuel; [lia|].
  cbn [checkValidPlacement_rows].
  destruct (Nat.ltb_spec row (length shape)) as [Hlt|Hge].
  - destruct (lookup_lt_is_Some_2 shape row Hlt) as [cells Hcells].
    rewrite (drop_S _ _ _ Hcells). cbn [rows_free].
    unfold bind at 1.
    rewrite (checkValidPlacement_cols_run shape x y row cells Hcells)
      by (rewrite Hcells; cbn; lia).
    rewrite drop_0.
    destruct (cols_free _ _ _ _ _ _); cbn [andb]; [|reflexivity].
    apply IH. lia.
  - rewrite drop_ge by lia. reflexivity.
Qed.

(** The call returns normally, leaves the state as it was, and its value is
    the fold over the whole shape. *)
Lemma checkValidPlacement_run (shape : Shape) (x y : Q) (st : App) :
  checkValidPlacement shape x y st =
  (Normal (rows_free (grid (gameState st)) x y 0 shape), st).
Proof.
  unfold checkValidPlacement, bind.
  rewrite checkValidPlacement_rows_run by lia.
  rewrite drop_0. destruct (rows_free _ _ _ _ _); reflexivity.
Qed.

(** ** The folds against the specification vocabulary *)

Lemma cols_free_iff (g : Grid) (x y : Q) (row : nat) (cells : list Z) :
  forall col : nat,
    cols_free g x y row col cells = true <->
    (forall c : nat, cells !! c = Some 1 -> admits g x y row (col + c) = true).
Proof.
  induction cells as [|v rest IH]; intros col; cbn [cols_free].
  - split; [intros _ c Hc; discriminate Hc | reflexivity].
  - rewrite andb_true_iff, IH. split.
    + intros [Hv Hrest] [|c] Hc; cbn in Hc.
      * injection Hc as ->. rewrite Nat.add_0_r.
        rewrite bool_decide_eq_true_2 in Hv; done.
      * replace (col + S c)%nat with (S col + c)%nat by lia. auto.
    + intros H. split.
      * case_bool_decide as Hv; [|reflexivity]. subst v.
        rewrite <- (Nat.add_0_r col). apply H. reflexivity.
      * intros c Hc. replace (S col + c)%nat with (col + S c)%nat by lia.
        apply H. exact Hc.
Qed.

Lemma rows_free_iff (g : Grid) (x y : Q) (rows : Shape) :
  forall row : nat,
    rows_free g x y row rows = true <->
    (forall r c : nat, filled rows r c -> admits g x y (row + r) c = true).
Proof.
  induction rows as [|cells rest IH]; intros row; cbn [rows_free].
  - split; [intros _ r c (cs & Hr & _); discriminate Hr | reflexivity].
  - rewrite andb_true_iff, IH, cols_free_iff. split.
    + intros [Hhere Hrest] [|r] c (cs & Hr & Hc); cbn in Hr.
      * injection Hr as <-. rewrite Nat.add_0_r. apply (Hhere c Hc).
      * replace (row + S r)%nat with (S row + r)%nat by lia.
        apply Hrest. exists cs. auto.
    + intros H. split.
      * intros c Hc. rewrite <- (Nat.add_0_r row). apply H. exists cells. auto.
      * intros r c (cs & Hr & Hc).
        replace (S row + r)%nat with (row + S r)%nat by lia.
        apply H. exists cs. auto.
Qed.

(** A sub-cell that passes the two tests lies on the board. *)
Lemma admits_in_bounds (g : Grid) (x y : Q) (r c : nat) :
  admits g x y r c = true ->
  0 <= cellOf y + Z.of_nat r < 10 /\ 0 <= cellOf x + Z.of_nat c < 10.
Proof.
  unfold admits. intros H. apply andb_true_iff in H as [H _].
  apply negb_true_iff in H.
  repeat (apply orb_false_iff in H as [H ?]). lia.
Qed.

Lemma fits_admits (g : Grid) (x y : Q) (r c : nat) :
  fits g x y r c -> admits g x y r c = true.
Proof.
  unfold fits, admits, empty_at, occupied.
  intros (Hrow & Hcol & cells & Hcells & Hcell).
  rewrite Hcells, Hcell. cbn [negb andb].
  rewrite andb_true_r. apply negb_true_iff.
  repeat (apply orb_false_iff; split); lia.
Qed.

Lemma admits_fits (g : Grid) (x y : Q) (r c : nat) :
  is_10x10 g -> admits g x y r c = true -> fits g x y r c.
Proof.
  intros [Hlen Hrows] H.
  destruct (admits_in_bounds _ _ _ _ _ H) as [Hrow Hcol].
  unfold fits. split; [exact Hrow|]. split; [exact Hcol|].
  unfold admits in H. apply andb_true_iff in H as [_ H].
  apply negb_true_iff in H. unfold occupied in H. unfold empty_at.
  destruct (lookup_lt_is_Some_2 g (Z.to_nat (cellOf y + Z.of_nat r)))
    as [cells Hcells]; [lia|].
  rewrite Hcells in H. exists cells. split; [exact Hcells|].
  assert (Hlen' : length cells = 10%nat).
  { exact (Forall_lookup_1 _ _ _ _ Hrows Hcells). }
  destruct (lookup_lt_is_Some_2 cells (Z.to_nat (cellOf x + Z.of_nat c)))
    as [cell Hcell]; [lia|].
  rewrite Hcell in H |- *. destruct cell; [discriminate H | reflexivity].
Qed.

(** ** Claims about checkValidPlacement *)

(** C1.  On a 10x10 grid, with the origin cell (row0, col0) =
    (floor(y/40), floor(x/40)), [checkValidPlacement shape x y] returns
    normally, and returns [true] if and only if every filled sub-cell (r, c)
    of the shape has 0 <= row0 + r < 10, 0 <= col0 + c < 10 and an empty
    (null) grid cell at (row0 + r, col0 + c). *)
Theorem checkValidPlacement_true_iff (st : App) (shape : Shape) (x y : Q) :
  is_10x10 (grid (gameState st)) ->
  exists b : bool,
    checkValidPlacement shape x y st = (Normal b, st) /\
    (b = true <->
     forall r c : nat, filled shape r c -> fits (grid (gameState st)) x y r c).
Proof.
  intros Hgrid. eexists. split; [apply checkValidPlacement_run|].
  rewrite rows_free_iff. cbn [Nat.add].
  split; intros H r c Hrc.
  - apply admits_fits; auto.
  - apply fits_admits; auto.
Qed.

(** C4.  For any grid, any shape with a filled sub-cell and any pixel
    coordinates, [checkValidPlacement] returns a boolean without throwing;
    when every filled sub-cell falls outside the 10x10 grid the boolean is
    [false]. *)
Theorem checkValidPlacement_total (st : App) (shape : Shape) (x y : Q) :
  (exists r c : nat, filled shape r c) ->
  (exists b : bool, checkValidPlacement shape x y st = (Normal b, st)) /\
  ((forall r c : nat, filled shape r c ->
      ~ (0 <= cellOf y + Z.of_nat r < 10 /\ 0 <= cellOf x + Z.of_nat c < 10)) ->
   checkValidPlacement shape x y st = (Normal false, st)).
Proof.
  intros (r & c & Hrc). split.
  - eexists. apply checkValidPlacement_run.
  - intros Hout. rewrite checkValidPlacement_run.
    destruct (rows_free _ _ _ _ _) eqn:Hfree; [|reflexivity].
    exfalso. apply (Hout r c Hrc).
    rewrite rows_free_iff in Hfree.
    apply (admits_in_bounds (grid (gameState st))). apply (Hfree r c Hrc).
Qed.

(** C5.  [checkValidPlacement] is pure: a call leaves the whole client
    state as it was, and two calls with the same grid, shape and pixel
    coordinates return the same result, whatever the rest of the state. *)
Theorem checkValidPlacement_pure (st1 st2 : App) (shape : Shape) (x y : Q) :
  grid (gameState st1) = grid (gameState st2) ->
  snd (checkValidPlacement shape x y st1) = st1 /\
  snd (checkValidPlacement shape x y st2) = st2 /\
  fst (checkValidPlacement shape x y st1) = fst (checkValidPlacement shape x y st2).
Proof.
  intros Hgrid. rewrite !checkValidPlacement_run. cbn [fst snd].
  rewrite Hgrid. auto.
Qed.

(** C10.  A shape without a filled sub-cell (no rows, or no entry equal to
    1) is accepted on every grid at every pixel position, also when the
    origin cell is outside the grid. *)
Theorem checkValidPlacement_no_filled (st : App) (shape : Shape) (x y : Q) :
  (forall r c : nat, ~ filled shape r c) ->
  checkValidPlacement shape x y st = (Normal true, st).
Proof.
  intros Hnone. rewrite checkValidPlacement_run. f_equal. f_equal.
  apply rows_free_iff. intros r c Hrc. destruct (Hnone r c Hrc).
Qed.

(** ** Rotation: dimensions and cells *)

Section Rotation.

Context {A : Type}.
Implicit Types (m : list (list A)) (rows cols : nat).

Lemma column_length m cols c :
  Forall (fun r => length r = cols) m -> (c < cols)%nat ->
  length (column m c) = length m.
Proof.
  intros Hm Hc. induction Hm as [|cells rest Hcells _ IH]; [reflexivity|].
  unfold column in *. cbn [omap list_omap].
  destruct (lookup_lt_is_Some_2 cells c) as [v Hv]; [lia|].
  rewrite Hv. cbn. rewrite IH. reflexivity.
Qed.

Lemma column_lookup m cols c r :
  Forall (fun r => length r = cols) m -> (c < cols)%nat ->
  column m c !! r = cell m r c.
Proof.
  intros Hm Hc. revert r.
  induction Hm as [|cells rest Hcells _ IH]; intros r; [reflexivity|].
  unfold column in *. cbn [omap list_omap].
  destruct (lookup_lt_is_Some_2 cells c) as [v Hv]; [lia|].
  rewrite Hv. destruct r as [|r].
  - unfold cell. cbn. symmetry. exact Hv.
  - cbn. rewrite IH. reflexivity.
Qed.

Lemma width_matrix m rows cols :
  is_matrix rows cols m -> (0 < rows)%nat -> width m = cols.
Proof.
  intros [Hlen Hm] Hrows. destruct Hm as [|cells rest Hcells _]; cbn in *; lia.
Qed.

Lemma transpose_cell m rows cols c r :
  is_matrix rows cols m -> (0 < rows)%nat -> (c < cols)%nat ->
  cell (transpose m) c r = cell m r c.
Proof.
  intros Hm Hrows Hc. unfold cell at 1, transpose.
  rewrite (width_matrix m rows cols Hm Hrows).
  rewrite list_lookup_fmap, lookup_seq_lt by exact Hc. cbn.
  apply (column_lookup m cols). - apply Hm. - exact Hc.
Qed.

Lemma rotate_matrix m rows cols :
  is_matrix rows cols m -> (0 < rows)%nat -> is_matrix cols rows (rotate m).
Proof.
  intros Hm Hrows. unfold rotate, transpose.
  rewrite (width_matrix m rows cols Hm Hrows). split.
  - rewrite !length_fmap, length_seq. reflexivity.
  - apply Forall_fmap, Forall_fmap, Forall_forall. intros c Hc.
    apply elem_of_seq in Hc. cbn.
    rewrite length_reverse, (column_length m cols) by (apply Hm || lia).
    apply Hm.
Qed.

Lemma rotate_cell m rows cols i j :
  is_matrix rows cols m -> (i < cols)%nat -> (j < rows)%nat ->
  cell (rotate m) i j = cell m (rows - S j) i.
Proof.
  intros Hm Hi Hj. unfold cell at 1, rotate, transpose.
  rewrite (width_matrix m rows cols Hm) by lia.
  rewrite !list_lookup_fmap, lookup_seq_lt by exact Hi. cbn.
  destruct Hm as [Hlen Hm].
  pose proof (column_length m cols i Hm Hi) as Hcol.
  rewrite reverse_lookup by lia. rewrite Hcol, Hlen.
  apply (column_lookup m cols); assumption.
Qed.

Lemma rotate_no_columns m : width m = O -> rotate m = [].
Proof. intros H. unfold rotate, transpose. rewrite H. reflexivity. Qed.

Lemma matrix_ext m1 m2 rows cols :
  is_matrix rows cols m1 -> is_matrix rows cols m2 ->
  (forall i j : nat, (i < rows)%nat -> (j < cols)%nat -> cell m1 i j = cell m2 i j) ->
  m1 = m2.
Proof.
  intros [Hlen1 Hm1] [Hlen2 Hm2] Hcells.
  apply (list_eq_same_length _ _ rows); [lia | lia |].
  intros i cells1 cells2 Hi H1 H2.
  pose proof (Forall_lookup_1 _ _ _ _ Hm1 H1) as Hc1.
  pose proof (Forall_lookup_1 _ _ _ _ Hm2 H2) as Hc2.
  cbn beta in Hc1, Hc2.
  apply (list_eq_same_length _ _ cols); [lia | lia |].
  intros j v1 v2 Hj Hv1 Hv2.
  specialize (Hcells i j Hi Hj). unfold cell in Hcells.
  rewrite H1, H2, Hv1, Hv2 in Hcells. congruence.
Qed.

Lemma cell_out_of_range m rows cols r c :
  is_matrix rows cols m -> (rows <= r \/ cols <= c)%nat -> cell m r c = None.
Proof.
  intros [Hlen Hm] Hout. unfold cell.
  destruct (m !! r) as [cells|] eqn:Hr; [|reflexivity].
  pose proof (Forall_lookup_1 _ _ _ _ Hm Hr) as Hcells.
  cbn beta in Hcells.
  pose proof (lookup_lt_Some _ _ _ Hr).
  apply lookup_ge_None. lia.
Qed.

(** Four quarter turns of a matrix that has a row and a column. *)
Lemma rotate_rotate_rotate_rotate m rows cols :
  is_matrix rows cols m -> (0 < rows)%nat -> (0 < cols)%nat ->
  rotate (rotate (rotate (rotate m))) = m.
Proof.
  intros Hm Hrows Hcols.
  pose proof (rotate_matrix _ _ _ Hm Hrows) as H1.
  pose proof (rotate_matrix _ _ _ H1 Hcols) as H2.
  pose proof (rotate_matrix _ _ _ H2 Hrows) as H3.
  pose proof (rotate_matrix _ _ _ H3 Hcols) as H4.
  apply (matrix_ext _ _ rows cols H4 Hm). intros i j Hi Hj.
  rewrite (rotate_cell _ cols rows) by (assumption || lia).
  rewrite (rotate_cell _ rows cols) by (assumption || lia).
  rewrite (rotate_cell _ cols rows) by (assumption || lia).
  rewrite (rotate_cell _ rows cols) by (assumption || lia).
  f_equal; lia.
Qed.

End Rotation.

(** C6.  Four applications of the spec's 90-degree rotation (transpose, then
    reverse each row) to a rectangular matrix give back every cell of the
    original; when the matrix has at least one column, or no row, the
    result is the original matrix itself. *)
Theorem rotate_four_times {A : Type} (rows cols : nat) (m : list (list A)) :
  is_matrix rows cols m ->
  (forall r c : nat, cell (rotate (rotate (rotate (rotate m)))) r c = cell m r c) /\
  ((0 < cols)%nat \/ rows = O -> rotate (rotate (rotate (rotate m))) = m).
Proof.
  intros Hm.
  destruct rows as [|rows'].
  { destruct Hm as [Hlen _]. apply nil_length_inv in Hlen. subst m.
    split; reflexivity. }
  destruct cols as [|cols'].
  { assert (Hw : width m = O) by (apply (width_matrix m _ _ Hm); lia).
    rewrite (rotate_no_columns m Hw). split.
    - intros r c. cbn. symmetry.
      destruct (decide (r < S rows')%nat).
      + apply (cell_out_of_range m _ _ r c Hm). lia.
      + apply (cell_out_of_range m _ _ r c Hm). lia.
    - intros [H|H]; lia. }
  assert (Heq : rotate (rotate (rotate (rotate m))) = m)
    by (apply (rotate_rotate_rotate_rotate m (S rows') (S cols') Hm); lia).
  rewrite Heq. split; [reflexivity | auto].
Qed.

(** ** The catalog *)

(** C9.  The catalog has exactly the seven entries I, O, T, L, J, S, Z, each
    with the stated shape matrix and a fixed colour, and every shape is a
    non-empty rectangular matrix of zeros and ones. *)
Theorem TETRIS_PIECES_catalog :
  (fun entry => (fst entry, shape (snd entry), color (snd entry))) <$> TETRIS_PIECES =
    [ ("I", [[1; 1; 1; 1]], Some "#00FFFF");
      ("O", [[1; 1]; [1; 1]], Some "#FFFF00");
      ("T", [[0; 1; 0]; [1; 1; 1]], Some "#800080");
      ("L", [[1; 0; 0]; [1; 1; 1]], Some "#FFA500");
      ("J", [[0; 0; 1]; [1; 1; 1]], Some "#0000FF");
      ("S", [[0; 1; 1]; [1; 1; 0]], Some "#00FF00");
      ("Z", [[1; 1; 0]; [0; 1; 1]], Some "#FF0000") ] /\
  length TETRIS_PIECES = 7%nat /\
  Forall (fun entry => well_formed (shape (snd entry))) TETRIS_PIECES.
Proof.
  split; [reflexivity|]. split; [reflexivity|].
  unfold TETRIS_PIECES.
  repeat first [apply Forall_nil_2 | apply Forall_cons_2]; cbn [snd shape];
    (split; [discriminate|]; split;
     [ eexists; split;
       [|repeat first [apply Forall_nil_2 | apply Forall_cons_2; [reflexivity|]]];
       cbn; lia
     | repeat first [apply Forall_nil_2 | apply Forall_cons_2];
       first [left; reflexivity | right; reflexivity] ]).
Qed.

Lemma has_filled_lookup (cells : list Z) :
  has_filled cells = true -> exists c : nat, cells !! c = Some 1.
Proof.
  induction cells as [|v rest IH]; cbn; [discriminate|].
  destruct (Z.eqb_spec v 1) as [->|_]; cbn.
  - intros _. exists O. reflexivity.
  - intros H. destruct (IH H) as [c Hc]. exists (S c). exact Hc.
Qed.

Lemma left_column_filled (s : Shape) :
  has_filled (omap head s) = true -> exists r : nat, filled s r 0.
Proof.
  induction s as [|cells rest IH]; cbn; [discriminate|].
  destruct cells as [|v vs]; cbn.
  - intros H. destruct (IH H) as (r & cs & Hr & Hc). exists (S r), cs. auto.
  - destruct (Z.eqb_spec v 1) as [->|_]; cbn.
    + intros _. exists O, (1 :: vs). auto.
    + intros H. destruct (IH H) as (r & cs & Hr & Hc). exists (S r), cs. auto.
Qed.

(** A shape whose boundary rows and columns are filled has a filled sub-cell
    in its first row and one in its first column. *)
Lemma boundaries_filled_anchor (s : Shape) :
  boundaries_filled s = true ->
  (exists c : nat, filled s 0 c) /\ (exists r : nat, filled s r 0).
Proof.
  destruct s as [|top rest]; [discriminate|].
  unfold boundaries_filled. rewrite !andb_true_iff.
  intros [[[Htop _] Hleft] _]. split.
  - destruct (has_filled_lookup top Htop) as [c Hc]. exists c, top. auto.
  - apply left_column_filled, Hleft.
Qed.

(** The 28 rotational states of the catalog all have filled boundaries. *)
Lemma rotational_states_boundaries (s : Shape) :
  s ∈ rotational_states -> boundaries_filled s = true.
Proof.
  assert (H : forallb boundaries_filled rotational_states = true) by reflexivity.
  rewrite forallb_forall in H. intros Hs. apply H, list_elem_of_In, Hs.
Qed.

(** ** Messages from the server *)

(** C7.  [piece_placed] replaces [grid], [score] and [nextPiece] by the
    payload's [grid], [score] and [next_piece], clears the held piece, and
    leaves [players] and every other part of the client state as it was. *)
Theorem onmessage_piece_placed (captured : option Piece) (g : Grid) (sc : Z)
    (np : option Piece) (st : App) :
  exists st' : App,
    onmessage captured (piece_placed g sc np) st = (Normal tt, st') /\
    grid (gameState st') = g /\
    score (gameState st') = sc /\
    nextPiece (gameState st') = np /\
    currentPiece st' = None /\
    players (gameState st') = players (gameState st) /\
    gs_playerName (gameState st') = gs_playerName (gameState st) /\
    gs_playerColor (gameState st') = gs_playerColor (gameState st) /\
    roomId st' = roomId st /\ playerName st' = playerName st /\
    isConnected st' = isConnected st /\ dragState st' = dragState st /\
    piecePosition st' = piecePosition st /\
    isValidPlacement st' = isValidPlacement st /\
    wsRef st' = wsRef st /\ gridRef st' = gridRef st /\
    connectToGame_currentPiece st' = connectToGame_currentPiece st.
Proof. eexists. split; [reflexivity|]. cbn. repeat split. Qed.

(** [piece_rotated] under a closure that captured a held piece: the updater
    runs on the piece held now. *)
Lemma onmessage_piece_rotated_captured (q : Piece) (s : Shape) (st : App) :
  exists st' : App,
    onmessage (Some q) (piece_rotated s) st = (Normal tt, st') /\
    currentPiece st' = Some (spread_shape (currentPiece st) s) /\
    same_except_currentPiece st st'.
Proof. eexists. split; [reflexivity|]. cbn. repeat split. Qed.

(** [piece_rotated] under a closure that captured no piece does nothing,
    whatever piece is held now. *)
Lemma onmessage_piece_rotated_stale (s : Shape) (st : App) :
  onmessage None (piece_rotated s) st = (Normal tt, st).
Proof. reflexivity. Qed.

(** C3 (violated).  In the first session of a freshly loaded client the
    [onmessage] closure was created while no piece was held, so a
    [piece_rotated] message that arrives while a claimed piece is held
    leaves that piece, shape included, as it was. *)
Theorem piece_rotated_first_session (WS_URL : string) (offered : Piece) (now : Z)
    (rotated : Shape) :
  currentPiece (run WS_URL initialApp (first_session offered now rotated)) =
  Some {| shape := shape offered; color := color offered; type := type offered;
          id := Some now |}.
Proof. reflexivity. Qed.

(** ** Claiming the offered piece *)

(** C8.  [getNewPiece] sends nothing and changes nothing but the held piece,
    which becomes the offered piece with [id] set to the current time; the
    offered piece stays in place; with no offered piece the state is
    unchanged. *)
Theorem getNewPiece_local (now : Z) (st : App) :
  exists st' : App,
    getNewPiece now st = (Normal tt, st') /\
    sent_log st' = sent_log st /\
    same_except_currentPiece st st' /\
    match nextPiece (gameState st) with
    | Some p =>
        currentPiece st' =
        Some {| shape := shape p; color := color p; type := type p; id := Some now |}
    | None => st' = st
    end.
Proof.
  unfold getNewPiece, bind, gets.
  destruct (nextPiece (gameState st)) as [p|] eqn:Hnext.
  - eexists. split; [reflexivity|]. cbn. repeat split.
  - exists st. repeat split.
Qed.

(** ** Releasing a dragged piece *)

(** An approved shape with filled boundaries has its origin cell on the
    board. *)
Lemma approved_origin_on_board (g : Grid) (x y : Q) (s : Shape) :
  boundaries_filled s = true -> rows_free g x y 0 s = true ->
  0 <= cellOf x <= 9 /\ 0 <= cellOf y <= 9.
Proof.
  intros Hs Hfree. rewrite rows_free_iff in Hfree.
  destruct (boundaries_filled_anchor s Hs) as [[c Hc] [r Hr]].
  apply Hfree, admits_in_bounds in Hc. apply Hfree, admits_in_bounds in Hr.
  generalize dependent (cellOf x). generalize dependent (cellOf y). lia.
Qed.

(** C2.  When the held shape is a rotational state of a catalog shape,
    [handleMouseUp] returns normally and sends at most one message: a
    [place_piece] whose payload is the held shape, the cell coordinates
    (floor(x/40), floor(y/40)) of the release position relative to the grid,
    both within 0..9, and the held colour.  The release position is the
    difference of the doubles [clientX] and [rect.left] ([clientY] and
    [rect.top]) as JavaScript computes it, rounded to the nearest double.
    The message is sent exactly when a piece is being dragged over the
    mounted grid, a socket exists and [checkValidPlacement] approves the
    shape at the release position; otherwise nothing is sent. *)
Theorem handleMouseUp_place_piece (e : MouseEvent) (st : App) :
  (forall p : Piece, currentPiece st = Some p -> shape p ∈ rotational_states) ->
  exists st' : App,
    handleMouseUp e st = (Normal tt, st') /\
    (sent_log st' = sent_log st \/
     exists (p : Piece) (rect : DOMRect),
       let x := double_sub (clientX e) (rect_left rect) in
       let y := double_sub (clientY e) (rect_top rect) in
       currentPiece st = Some p /\ gridRef st = Some rect /\
       isDragging (dragState st) = true /\
       checkValidPlacement (shape p) x y st = (Normal true, st) /\
       sent_log st' =
         (sent_log st ++ [place_piece (shape p) (cellOf x) (cellOf y) (color p)])%list /\
       0 <= cellOf x <= 9 /\ 0 <= cellOf y <= 9) /\
    (forall (p : Piece) (rect : DOMRect),
       let x := double_sub (clientX e) (rect_left rect) in
       let y := double_sub (clientY e) (rect_top rect) in
       currentPiece st = Some p -> gridRef st = Some rect ->
       (isDragging (dragState st) = true -> is_Some (wsRef st) ->
        checkValidPlacement (shape p) x y st = (Normal true, st) ->
        sent_log st' =
          (sent_log st ++ [place_piece (shape p) (cellOf x) (cellOf y) (color p)])%list) /\
       (checkValidPlacement (shape p) x y st = (Normal false, st) ->
        sent_log st' = sent_log st)).
Proof.
  intros Hheld. unfold handleMouseUp, bind, gets.
  destruct (isDragging (dragState st)) eqn:Hdrag; cycle 1.
  { exists st. split; [reflexivity|]. split; [left; reflexivity|].
    intros p rect; cbn zeta; intros _ _. split; [discriminate | reflexivity]. }
  destruct (currentPiece st) as [p|] eqn:Hcp; cycle 1.
  { exists st. split; [reflexivity|]. split; [left; reflexivity|].
    intros p rect; cbn zeta; intros Hp. discriminate Hp. }
  pose proof (rotational_states_boundaries _ (Hheld p eq_refl)) as Hshape.
  cbn -[checkValidPlacement cellOf].
  destruct (gridRef st) as [rect|] eqn:Hrect; cycle 1.
  { eexists. split; [reflexivity|]. split; [left; reflexivity|].
    intros p' rect; cbn zeta; intros _ Hr. discriminate Hr. }
  rewrite checkValidPlacement_run. cbn -[rows_free cellOf].
  set (x := double_sub (clientX e) (rect_left rect)).
  set (y := double_sub (clientY e) (rect_top rect)).
  destruct (rows_free (grid (gameState st)) x y 0 (shape p)) eqn:Hfree; cycle 1.
  { eexists. split; [reflexivity|]. split; [left; reflexivity|].
    intros p' rect'; cbn zeta; intros Hp' Hr'. injection Hp' as <-. injection Hr' as <-.
    fold x y. rewrite checkValidPlacement_run, Hfree.
    split; [discriminate | reflexivity]. }
  destruct (wsRef st) as [ws|] eqn:Hws; cycle 1.
  { eexists. split; [reflexivity|]. unfold sent_log. cbn. rewrite Hws.
    split; [left; reflexivity|].
    intros p' rect'; cbn zeta; intros _ _. split; [|reflexivity].
    intros _ [ws' Hws']. discriminate Hws'. }
  rewrite bool_decide_eq_true_2 by eauto.
  cbn -[cellOf]. unfold ws_send, bind, gets. cbn -[cellOf].
  eexists. split; [reflexivity|]. unfold sent_log. cbn -[cellOf]. rewrite Hws.
  destruct (approved_origin_on_board _ _ _ _ Hshape Hfree) as [Hx Hy].
  split.
  - right. exists p, rect. fold x y. cbn zeta.
    rewrite checkValidPlacement_run, Hfree. repeat split; tauto.
  - intros p' rect'; cbn zeta; intros Hp' Hr'. injection Hp' as <-. injection Hr' as <-.
    fold x y. rewrite checkValidPlacement_run, Hfree.
    split; [reflexivity | discriminate].
Qed.

(** ** The first session: no closure ever sees a held piece *)

Lemma dispatch_captures_nothing (WS_URL : string) (st : App) (ev : Event) :
  enabled st ev = true -> ev <> SocketClose ->
  captures_nothing st -> captures_nothing (dispatch WS_URL st ev).
Proof.
  intros Hen Hev (Hmemo & Hws & Hjoin).
  unfold dispatch.
  destruct ev; cbn [handler enabled] in *.
  - apply negb_true_iff in Hen. specialize (Hjoin Hen).
    unfold rerender. cbn. case_bool_decide; cbn; repeat split; auto.
  - apply negb_true_iff in Hen. specialize (Hjoin Hen).
    unfold rerender. cbn. case_bool_decide; cbn; repeat split; auto.
  - unfold joinGame, connectToGame, bind, gets.
    repeat (case_bool_decide; cbn [negb andb orb]); settle_render.
  - settle_render.
  - unfold bind, gets. destruct (wsRef st) as [s|] eqn:Hs; [|settle_render].
    rewrite (Hws s eq_refl). destruct message; settle_render.
  - congruence.
  - apply andb_true_iff in Hen as [Hconn _].
    unfold getNewPiece, bind, gets.
    destruct (nextPiece (gameState st)); settle_render; congruence.
  - unfold rotatePiece, ws_send, bind, gets.
    apply andb_true_iff in Hen as [Hconn _].
    cbn. destruct (currentPiece st) eqn:Hcp, (wsRef st) as [s|] eqn:Hs; settle_render.
  - unfold handleMouseDown, bind, gets.
    destruct (currentPiece st) eqn:Hcp; [|settle_render].
    cbn. destruct (gridRef st); settle_render.
  - unfold handleMouseMove, bind, gets.
    destruct (isDragging (dragState st)); [|settle_render].
    destruct (currentPiece st) eqn:Hcp; [|settle_render].
    destruct (gridRef st); [|settle_render].
    cbn -[checkValidPlacement]. rewrite checkValidPlacement_run. settle_render.
  - unfold handleMouseUp, bind, gets.
    destruct (isDragging (dragState st)); [|settle_render].
    destruct (currentPiece st) eqn:Hcp; [|settle_render].
    cbn -[checkValidPlacement cellOf].
    destruct (gridRef st); [|settle_render].
    rewrite checkValidPlacement_run. cbn -[rows_free cellOf].
    destruct (rows_free _ _ _ _ _); cbn -[cellOf]; [|settle_render].
    unfold ws_send, bind, gets. cbn -[cellOf].
    destruct (wsRef st) as [s|] eqn:Hs.
    + rewrite bool_decide_eq_true_2 by eauto. settle_render.
    + rewrite bool_decide_eq_false_2 by (intros [? ?]; discriminate). settle_render.
  - unfold set_gridRef, bind, gets. destruct (gridRef st); settle_render.
Qed.

Lemma first_session_captures_nothing (WS_URL : string) (st : App) :
  first_session_state WS_URL st -> captures_nothing st.
Proof.
  induction 1 as [|st ev _ IH Hen Hev].
  - repeat split. intros s Hs. discriminate Hs.
  - apply dispatch_captures_nothing; assumption.
Qed.

(** Every committed render leaves [gridRef] attached or cleared. *)
Lemma rerender_mounted (before after : App) : mounted (rerender before after).
Proof.
  unfold mounted, rerender, attach_gridRef. cbn.
  destruct (isConnected after), (gridRef after); reflexivity.
Qed.

(** A render that finds its dependencies and the screen as they were changes
    nothing. *)
Lemma rerender_fields_same (before after : App) :
  roomId before = roomId after /\ playerName before = playerName after ->
  mounted after ->
  rerender before after = after.
Proof.
  unfold mounted, rerender. intros H ->.
  rewrite bool_decide_eq_true_2 by exact H. destruct after; reflexivity.
Qed.

Lemma rerender_same (st : App) : mounted st -> rerender st st = st.
Proof. apply rerender_fields_same. split; reflexivity. Qed.

Lemma first_session_mounted (WS_URL : string) (st : App) :
  first_session_state WS_URL st -> mounted st.
Proof. destruct 1; [reflexivity | apply rerender_mounted]. Qed.

Lemma reachable_mounted (WS_URL : string) (st : App) :
  reachable WS_URL st -> mounted st.
Proof. destruct 1; [reflexivity | apply rerender_mounted]. Qed.

(** Throughout the first session a [piece_rotated] message changes nothing,
    whether or not a piece is held. *)
Lemma piece_rotated_ignored_in_first_session (WS_URL : string) (st : App) (s : Shape) :
  first_session_state WS_URL st ->
  dispatch WS_URL st (SocketMessage (piece_rotated s)) = st.
Proof.
  intros Hst. destruct (first_session_captures_nothing WS_URL st Hst) as (_ & Hws & _).
  unfold dispatch, handler, bind, gets.
  destruct (wsRef st) as [ws|] eqn:Hs.
  - rewrite (Hws ws eq_refl). cbn. eapply rerender_same, first_session_mounted, Hst.
  - cbn. eapply rerender_same, first_session_mounted, Hst.
Qed.

(** ** Evaluations on concrete inputs *)

(** The spec's scenario: on the empty grid an I piece at origin (0, 7) is
    rejected, at origin (0, 6) accepted. *)
Example place_I_at_0_7 :
  checkValidPlacement [[1; 1; 1; 1]] 280 0 initialApp = (Normal false, initialApp).
Proof. reflexivity. Qed.

Example place_I_at_0_6 :
  checkValidPlacement [[1; 1; 1; 1]] 279 39 initialApp = (Normal true, initialApp).
Proof. reflexivity. Qed.

(** An O piece that would cover the occupied cell (2, 3) is rejected. *)
Example place_O_on_occupied :
  fst (checkValidPlacement [[1; 1]; [1; 1]] 85 45 draggingApp) = Normal false.
Proof. reflexivity. Qed.

Example release_T_sends_place_piece :
  sent_log (snd (handleMouseUp {| clientX := 145; clientY := 135 |} draggingApp)) =
  [place_piece [[0; 1; 0]; [1; 1; 1]] 1 2 (Some "#800080")].
Proof. reflexivity. Qed.

(** The doubles written 280.7 and 0.7: their exact difference is below 280,
    the double nearest to it is 280.  The I piece released there is judged
    at column 7, where it does not fit, and nothing is sent. *)
Example release_I_at_280_7 :
  let rect := {| rect_left := round53 (7 # 10); rect_top := 0 |} in
  let e := {| clientX := round53 (2807 # 10); clientY := 0 |} in
  double_sub (clientX e) (rect_left rect) = 280%Q /\
  cellOf (clientX e - rect_left rect) = 6 /\
  cellOf (double_sub (clientX e) (rect_left rect)) = 7 /\
  sent_log (snd (handleMouseUp e (draggingI rect))) = [].
Proof. repeat split; vm_compute; reflexivity. Qed.

(** The doubles written 80.1 and 0.1: the rounded difference is 80, so a
    release there is sent for column 2, not 1. *)
Example release_I_at_80_1 :
  let rect := {| rect_left := round53 (1 # 10); rect_top := 0 |} in
  let e := {| clientX := round53 (801 # 10); clientY := 0 |} in
  double_sub (clientX e) (rect_left rect) = 80%Q /\
  cellOf (clientX e - rect_left rect) = 1 /\
  sent_log (snd (handleMouseUp e (draggingI rect))) =
  [place_piece [[1; 1; 1; 1]] 2 0 (Some "#00FFFF")].
Proof. repeat split; vm_compute; reflexivity. Qed.

(** Rounding follows the doubles: 0.1 is not one, 2^53 + 1 falls to the even
    neighbour, and a double is left as it is. *)
Example round53_samples :
  round53 (1 # 10) = (3602879701896397 # 36028797018963968)%Q /\
  round53 9007199254740993 = 9007199254740992%Q /\
  round53 9007199254740995 = 9007199254740996%Q /\
  round53 (round53 (2807 # 10)) = round53 (2807 # 10) /\
  round53 (-45 # 2) = (-45 # 2)%Q.
Proof. repeat split; vm_compute; reflexivity. Qed.

Example rotations_of_T :
  rotations [[0; 1; 0]; [1; 1; 1]] =
  [ [[0; 1; 0]; [1; 1; 1]]; [[1; 0]; [1; 1]; [1; 0]];
    [[1; 1; 1]; [0; 1; 0]]; [[0; 1]; [1; 1]; [0; 1]] ].
Proof. reflexivity. Qed.

(** The concrete first session is one of the sessions covered above. *)
Example first_session_reachable (WS_URL : string) :
  first_session_state WS_URL
    (run WS_URL initialApp (first_session pieceT 1700000000000 (rotate (shape pieceT)))).
Proof.
  unfold run, first_session. cbn [foldl].
  repeat (apply first_session_step; [| reflexivity | discriminate]).
  apply first_session_initial.
Qed.

(** ** Witnesses *)

Lemma checkValidPlacement_true_iff_witness :
  is_10x10 (grid (gameState draggingApp)) /\
  exists b : bool,
    checkValidPlacement (shape pieceT) 45 85 draggingApp = (Normal b, draggingApp) /\
    (b = true <->
     forall r c : nat,
       filled (shape pieceT) r c -> fits (grid (gameState draggingApp)) 45 85 r c).
Proof.
  assert (H : is_10x10 (grid (gameState draggingApp))).
  { split; [reflexivity|]. vm_compute.
    repeat first [apply Forall_nil_2 | apply Forall_cons_2; [reflexivity|]]. }
  split; [exact H|].
  exact (checkValidPlacement_true_iff draggingApp (shape pieceT) 45 85 H).
Defined.

Lemma checkValidPlacement_total_witness :
  (exists r c : nat, filled [[1; 1; 1; 1]] r c) /\
  (exists b : bool,
     checkValidPlacement [[1; 1; 1; 1]] 400 0 initialApp = (Normal b, initialApp)) /\
  ((forall r c : nat, filled [[1; 1; 1; 1]] r c ->
      ~ (0 <= cellOf 0 + Z.of_nat r < 10 /\ 0 <= cellOf 400 + Z.of_nat c < 10)) ->
   checkValidPlacement [[1; 1; 1; 1]] 400 0 initialApp = (Normal false, initialApp)).
Proof.
  assert (H : exists r c : nat, filled [[1; 1; 1; 1]] r c).
  { exists O, O, [1; 1; 1; 1]. split; reflexivity. }
  split; [exact H|].
  exact (checkValidPlacement_total initialApp [[1; 1; 1; 1]] 400 0 H).
Defined.

Lemma checkValidPlacement_pure_witness :
  let st2 := run "ws://host" initialApp (first_session pieceT 1 [[1]]) in
  grid (gameState initialApp) = grid (gameState st2) /\
  snd (checkValidPlacement (shape pieceT) 45 85 initialApp) = initialApp /\
  snd (checkValidPlacement (shape pieceT) 45 85 st2) = st2 /\
  fst (checkValidPlacement (shape pieceT) 45 85 initialApp) =
  fst (checkValidPlacement (shape pieceT) 45 85 st2).
Proof.
  intros st2.
  assert (H : grid (gameState initialApp) = grid (gameState st2)) by reflexivity.
  split; [exact H|].
  exact (checkValidPlacement_pure initialApp st2 (shape pieceT) 45 85 H).
Defined.

Lemma checkValidPlacement_no_filled_witness :
  (forall r c : nat, ~ filled [[0; 0]; [0; 0]] r c) /\
  checkValidPlacement [[0; 0]; [0; 0]] (-4000) 90000 draggingApp =
  (Normal true, draggingApp).
Proof.
  assert (H : forall r c : nat, ~ filled [[0; 0]; [0; 0]] r c).
  { intros r c (cells & Hr & Hc).
    destruct r as [|[|r]]; cbn in Hr; try discriminate Hr;
      injection Hr as <-; destruct c as [|[|c]]; discriminate Hc. }
  split; [exact H|].
  exact (checkValidPlacement_no_filled draggingApp [[0; 0]; [0; 0]] (-4000) 90000 H).
Defined.

Lemma rotate_four_times_witness :
  is_matrix 2 3 (shape pieceT) /\
  (forall r c : nat,
     cell (rotate (rotate (rotate (rotate (shape pieceT))))) r c =
     cell (shape pieceT) r c) /\
  ((0 < 3)%nat \/ 2%nat = O ->
   rotate (rotate (rotate (rotate (shape pieceT)))) = shape pieceT).
Proof.
  assert (H : is_matrix 2 3 (shape pieceT)).
  { split; [reflexivity|].
    repeat first [apply Forall_nil_2 | apply Forall_cons_2; [reflexivity|]]. }
  split; [exact H|].
  exact (rotate_four_times 2 3 (shape pieceT) H).
Defined.

Lemma handleMouseUp_place_piece_witness :
  let e := {| clientX := 145; clientY := 135 |} in
  (forall p : Piece, currentPiece draggingApp = Some p -> shape p ∈ rotational_states) /\
  exists st' : App,
    handleMouseUp e draggingApp = (Normal tt, st') /\
    (sent_log st' = sent_log draggingApp \/
     exists (p : Piece) (rect : DOMRect),
       let x := double_sub (clientX e) (rect_left rect) in
       let y := double_sub (clientY e) (rect_top rect) in
       currentPiece draggingApp = Some p /\ gridRef draggingApp = Some rect /\
       isDragging (dragState draggingApp) = true /\
       checkValidPlacement (shape p) x y draggingApp = (Normal true, draggingApp) /\
       sent_log st' =
         (sent_log draggingApp ++
          [place_piece (shape p) (cellOf x) (cellOf y) (color p)])%list /\
       0 <= cellOf x <= 9 /\ 0 <= cellOf y <= 9) /\
    (forall (p : Piece) (rect : DOMRect),
       let x := double_sub (clientX e) (rect_left rect) in
       let y := double_sub (clientY e) (rect_top rect) in
       currentPiece draggingApp = Some p -> gridRef draggingApp = Some rect ->
       (isDragging (dragState draggingApp) = true -> is_Some (wsRef draggingApp) ->
        checkValidPlacement (shape p) x y draggingApp = (Normal true, draggingApp) ->
        sent_log st' =
          (sent_log draggingApp ++
           [place_piece (shape p) (cellOf x) (cellOf y) (color p)])%list) /\
       (checkValidPlacement (shape p) x y draggingApp = (Normal false, draggingApp) ->
        sent_log st' = sent_log draggingApp)).
Proof.
  intros e.
  assert (H : forall p : Piece,
             currentPiece draggingApp = Some p -> shape p ∈ rotational_states).
  { intros p Hp. injection Hp as <-. cbn [shape].
    apply (list_elem_of_lookup_2 _ 8). reflexivity. }
  split; [exact H|].
  exact (handleMouseUp_place_piece e draggingApp H).
Defined.

(** ** checkValidPlacement on arbitrary grids *)

Lemma admits_free_at (g : Grid) (x y : Q) (r c : nat) :
  admits g x y r c = true <->
  (0 <= cellOf y + Z.of_nat r < 10 /\ 0 <= cellOf x + Z.of_nat c < 10 /\
   free_at g (cellOf y + Z.of_nat r) (cellOf x + Z.of_nat c)).
Proof.
  split.
  - intros H. destruct (admits_in_bounds _ _ _ _ _ H) as [Hrow Hcol].
    split; [exact Hrow|]. split; [exact Hcol|].
    unfold admits in H. apply andb_true_iff in H as [_ H].
    apply negb_true_iff in H. unfold occupied in H. unfold free_at, empty_at.
    destruct (g !! Z.to_nat (cellOf y + Z.of_nat r)) as [cells|]; [|left; reflexivity].
    right. exists cells. split; [reflexivity|].
    destruct (cells !! Z.to_nat (cellOf x + Z.of_nat c)) as [[cl|]|];
      [discriminate H | reflexivity | discriminate H].
  - intros (Hrow & Hcol & Hfree). unfold admits.
    apply andb_true_iff. split.
    + apply negb_true_iff. repeat (apply orb_false_iff; split); lia.
    + apply negb_true_iff. unfold occupied.
      destruct Hfree as [Hnone|(cells & Hcells & Hcell)].
      * rewrite Hnone. reflexivity.
      * rewrite Hcells, Hcell. reflexivity.
Qed.

(** X1.  On any grid, also one with missing rows or short rows,
    [checkValidPlacement] returns [true] exactly when every filled sub-cell
    lands inside the 10x10 bounds on a position that is free: its grid row
    is missing, or the row holds [null] there.  A cell missing from an
    existing row blocks the placement. *)
Theorem checkValidPlacement_any_grid (st : App) (shape : Shape) (x y : Q) :
  exists b : bool,
    checkValidPlacement shape x y st = (Normal b, st) /\
    (b = true <->
     forall r c : nat, filled shape r c ->
       0 <= cellOf y + Z.of_nat r < 10 /\ 0 <= cellOf x + Z.of_nat c < 10 /\
       free_at (grid (gameState st)) (cellOf y + Z.of_nat r) (cellOf x + Z.of_nat c)).
Proof.
  eexists. split; [apply checkValidPlacement_run|].
  rewrite rows_free_iff. cbn [Nat.add].
  split; intros H r c Hrc; apply admits_free_at, H, Hrc.
Qed.

Lemma rows_free_same_cell (g : Grid) (x y x' y' : Q) (s : Shape) :
  cellOf x = cellOf x' -> cellOf y = cellOf y' ->
  rows_free g x y 0 s = rows_free g x' y' 0 s.
Proof.
  intros Hx Hy. apply eq_true_iff_eq. rewrite !rows_free_iff.
  unfold admits. rewrite Hx, Hy. reflexivity.
Qed.

(** X2.  The verdict depends on the pixel position only through its cell:
    two positions with the same floor(x/40) and the same floor(y/40) get the
    same result. *)
Theorem checkValidPlacement_same_cell (st : App) (shape : Shape) (x y x' y' : Q) :
  cellOf x = cellOf x' -> cellOf y = cellOf y' ->
  checkValidPlacement shape x y st = checkValidPlacement shape x' y' st.
Proof.
  intros Hx Hy. rewrite !checkValidPlacement_run.
  rewrite (rows_free_same_cell _ x y x' y' shape Hx Hy). reflexivity.
Qed.

(** X3.  Filling the grid never turns a rejection into an approval: if every
    position that blocks in [st1]'s grid also blocks in [st2]'s, a placement
    approved in [st2] is approved in [st1]. *)
Theorem checkValidPlacement_antitone (st1 st2 : App) (shape : Shape) (x y : Q) :
  (forall gridX gridY : Z,
     occupied (grid (gameState st1)) gridX gridY = true ->
     occupied (grid (gameState st2)) gridX gridY = true) ->
  fst (checkValidPlacement shape x y st2) = Normal true ->
  fst (checkValidPlacement shape x y st1) = Normal true.
Proof.
  intros Hocc. rewrite !checkValidPlacement_run. cbn [fst].
  intros H. injection H as H. f_equal.
  rewrite rows_free_iff in H |- *. intros r c Hrc. specialize (H r c Hrc).
  unfold admits in H |- *. apply andb_true_iff in H as [Hb Hfree].
  apply andb_true_iff. split; [exact Hb|].
  apply negb_true_iff. apply negb_true_iff in Hfree.
  destruct (occupied (grid (gameState st1)) _ _) eqn:Ho; [|reflexivity].
  apply Hocc in Ho. congruence.
Qed.

Lemma checkValidPlacement_same_cell_witness :
  cellOf 45 = cellOf 79 /\ cellOf 85 = cellOf 119 /\
  checkValidPlacement (shape pieceT) 45 85 draggingApp =
  checkValidPlacement (shape pieceT) 79 119 draggingApp.
Proof.
  assert (Hx : cellOf 45 = cellOf 79) by reflexivity.
  assert (Hy : cellOf 85 = cellOf 119) by reflexivity.
  split; [exact Hx|]. split; [exact Hy|].
  exact (checkValidPlacement_same_cell draggingApp (shape pieceT) 45 85 79 119 Hx Hy).
Defined.

Lemma checkValidPlacement_antitone_witness :
  (forall gridX gridY : Z,
     occupied (grid (gameState initialApp)) gridX gridY = true ->
     occupied (grid (gameState draggingApp)) gridX gridY = true) /\
  fst (checkValidPlacement (shape pieceT) 45 85 draggingApp) = Normal true /\
  fst (checkValidPlacement (shape pieceT) 45 85 initialApp) = Normal true.
Proof.
  assert (H : forall gridX gridY : Z,
             occupied (grid (gameState initialApp)) gridX gridY = true ->
             occupied (grid (gameState draggingApp)) gridX gridY = true).
  { intros gridX gridY. unfold occupied.
    generalize (Z.to_nat gridX) (Z.to_nat gridY). intros cx cy.
    do 10 (destruct cy as [|cy]; [do 10 (destruct cx as [|cx]; [cbn; congruence|]);
                                  cbn; congruence|]).
    cbn. congruence. }
  assert (H2 : fst (checkValidPlacement (shape pieceT) 45 85 draggingApp) = Normal true)
    by reflexivity.
  split; [exact H|]. split; [exact H2|].
  exact (checkValidPlacement_antitone initialApp draggingApp (shape pieceT) 45 85 H H2).
Defined.

(** ** The handlers as a whole *)

(** Run a handler symbolically: unfold it, replace each call of
    [checkValidPlacement] by its value, and split on every test. *)
Ltac run_handler :=
  unfold handler, joinGame, connectToGame, onopen, onclose, onmessage, getNewPiece,
    rotatePiece, handleMouseDown, handleMouseMove, handleMouseUp, ws_send,
    setGameState, setRoomId, setPlayerName, setIsConnected, setCurrentPiece,
    setDragState, setPiecePosition, setIsValidPlacement, set_wsRef, set_gridRef,
    bind, gets, modify, ret, throw;
  repeat first
    [ rewrite checkValidPlacement_run
    | progress cbn -[checkValidPlacement cellOf rows_free Qmax Qmin Qminus Qplus]
    | match goal with
      | |- context [match ?x with _ => _ end] =>
          lazymatch x with
          | context [match _ with _ => _ end] => fail
          | _ => destruct x eqn:?
          end
      end ].

(** The guard [... && wsRef.current] cannot hold without a socket. *)
Ltac absurd_socket_guard :=
  match goal with
  | H : _ && bool_decide (is_Some None) = true |- _ =>
      apply andb_true_iff in H as [_ H]; apply bool_decide_eq_true in H;
      destruct H as [? H]; discriminate H
  end.

(** [connectToGame] cannot pass its guard while a socket exists. *)
Ltac absurd_connect_guard :=
  match goal with
  | H : _ || bool_decide (is_Some (Some _)) = false |- _ =>
      apply orb_false_iff in H as [_ H]; apply bool_decide_eq_false in H;
      destruct H; eauto
  end.

(** The render after a handler leaves these fields as the handler set them. *)
Lemma rerender_fields (before after : App) :
  gameState (rerender before after) = gameState after /\
  wsRef (rerender before after) = wsRef after /\
  isConnected (rerender before after) = isConnected after /\
  currentPiece (rerender before after) = currentPiece after.
Proof. unfold rerender. case_bool_decide; cbn; auto. Qed.

(** X5.  Only a server message changes the game state: after any other
    event (typing, joining, socket open or close, Get Piece, Rotate, mouse
    down, move or up) the grid, players, score and offered piece are what
    they were; in particular a release never fills the grid locally. *)
Theorem local_events_keep_gameState (WS_URL : string) (st : App) (ev : Event) :
  (forall message : ServerMessage, ev <> SocketMessage message) ->
  gameState (dispatch WS_URL st ev) = gameState st.
Proof.
  intros Hev. unfold dispatch.
  destruct (rerender_fields st (snd (handler WS_URL ev st))) as (-> & _).
  destruct ev; try (destruct (Hev message eq_refl));
    run_handler; try reflexivity; absurd_socket_guard.
Qed.

(** X6.  Until the socket closes its send log only grows, by at most one
    message per event, and only Rotate and a mouse release ever send. *)
Theorem sent_log_grows (WS_URL : string) (st : App) (ev : Event) :
  ev <> SocketClose ->
  exists new : list ClientMessage,
    sent_log (dispatch WS_URL st ev) = (sent_log st ++ new)%list /\
    (length new <= 1)%nat /\
    (new <> [] -> ev = ClickRotate \/ exists e : MouseEvent, ev = MouseUp e).
Proof.
  intros Hev. unfold dispatch, sent_log.
  destruct (rerender_fields st (snd (handler WS_URL ev st))) as (_ & -> & _).
  destruct ev; try destruct message; try congruence; run_handler;
    try absurd_socket_guard; try absurd_connect_guard; simplify_eq;
    first
      [ exists []; split; [by rewrite ?app_nil_r | split; [cbn; lia | congruence]]
      | eexists [_]; split; [reflexivity | split; [cbn; lia | intros _; eauto]] ].
Qed.

(** Rotate does not turn the held piece itself: [rotatePiece] changes
    nothing but the send log, to which it appends [rotate_piece] with the
    held shape as it is, exactly when a piece is held and a socket exists. *)
Theorem rotatePiece_only_sends (st : App) :
  exists st' : App,
    rotatePiece st = (Normal tt, st') /\
    same_except_wsRef st st' /\
    sent_log st' =
      (sent_log st ++
       match currentPiece st, wsRef st with
       | Some p, Some _ => [rotate_piece (shape p)]
       | _, _ => []
       end)%list.
Proof.
  unfold sent_log. run_handler; simplify_eq; eexists;
    (split; [reflexivity|]); cbn;
    try match goal with H : wsRef st = _ |- _ => rewrite ?H end;
    rewrite ?app_nil_r; repeat split; assumption || reflexivity.
Qed.

(** X7.  A mouse release never changes the held piece or the game state.
    While a held piece is being dragged it ends the drag (not dragging,
    position (0, 0), preview flag [true]); otherwise, also when the held
    piece was cleared in mid-drag, it does nothing at all and the drag flag
    stays as it was. *)
Theorem handleMouseUp_ends_drag (e : MouseEvent) (st : App) :
  exists st' : App,
    handleMouseUp e st = (Normal tt, st') /\
    currentPiece st' = currentPiece st /\
    gameState st' = gameState st /\
    isConnected st' = isConnected st /\
    match isDragging (dragState st), currentPiece st with
    | true, Some _ =>
        dragState st' = {| isDragging := false; startX := 0; startY := 0 |} /\
        piecePosition st' = {| pos_x := 0; pos_y := 0 |} /\
        isValidPlacement st' = true
    | _, _ => st' = st
    end.
Proof.
  run_handler; try absurd_socket_guard; simplify_eq; eexists;
    (split; [reflexivity|]); cbn; repeat split; assumption || reflexivity.
Qed.

(** X8.  [joinGame] never opens a second socket and never connects without
    a room id and a player name: when either is empty, or a socket already
    exists, it returns normally and changes nothing; the [WebSocket]
    constructor is not reached. *)
Theorem joinGame_guarded (WS_URL : string) (st : App) :
  roomId st = "" \/ playerName st = "" \/ is_Some (wsRef st) ->
  joinGame WS_URL st = (Normal tt, st).
Proof.
  intros H. unfold joinGame, connectToGame, bind, gets, ret.
  destruct (bool_decide (roomId st = "")) eqn:Hroom;
    destruct (bool_decide (playerName st = "")) eqn:Hname;
    cbn; rewrite ?Hroom, ?Hname; cbn; try reflexivity.
  apply bool_decide_eq_false in Hroom, Hname.
  destruct H as [H | [H | H]]; try contradiction.
  rewrite bool_decide_eq_true_2 by exact H. reflexivity.
Qed.

(** ** Reachable states *)

Lemma dispatch_connected_has_socket (WS_URL : string) (st : App) (ev : Event) :
  enabled st ev = true ->
  (isConnected st = true -> is_Some (wsRef st)) ->
  isConnected (dispatch WS_URL st ev) = true -> is_Some (wsRef (dispatch WS_URL st ev)).
Proof.
  intros Hen Hinv. unfold dispatch.
  destruct (rerender_fields st (snd (handler WS_URL ev st))) as (_ & -> & -> & _).
  destruct ev; try destruct message; cbn [enabled] in Hen;
    run_handler; try absurd_socket_guard; simplify_eq; cbn;
    try (intros Hc;
         first [ discriminate Hc | solve [eauto]
               | specialize (Hinv Hc);
                 first [exact Hinv | destruct Hinv as [? Hn]; discriminate Hn] ]).
  all: intros _; apply bool_decide_eq_true in Hen; exact Hen.
Qed.

(** X9.  Whenever the game screen is shown a socket exists: in every state
    the page can reach, [isConnected] implies that [wsRef.current] is set, so
    Rotate and an approved release are never dropped for want of a socket. *)
Theorem connected_has_socket (WS_URL : string) (st : App) :
  reachable WS_URL st -> isConnected st = true -> is_Some (wsRef st).
Proof.
  induction 1 as [|st ev _ IH Hen].
  - discriminate.
  - apply dispatch_connected_has_socket; assumption.
Qed.

(** ** Rounding *)

(** [nearest_even] is within a half of its argument. *)
Lemma nearest_even_error (r : Q) :
  (Qabs (inject_Z (nearest_even r) - r) <= 1 # 2)%Q.
Proof.
  unfold nearest_even.
  pose proof (Qfloor_le r) as Hlo. pose proof (Qlt_floor r) as Hhi.
  rewrite inject_Z_plus in Hhi. change (inject_Z 1) with 1%Q in Hhi.
  apply Qabs_Qle_condition.
  destruct (r - inject_Z (Qfloor r) ?= 1 # 2)%Q eqn:Hcmp.
  - apply Qeq_alt in Hcmp. destruct (Z.even (Qfloor r)).
    + split; lra.
    + rewrite inject_Z_plus. change (inject_Z 1) with 1%Q. split; lra.
  - apply Qlt_alt in Hcmp. split; lra.
  - apply Qgt_alt in Hcmp. rewrite inject_Z_plus. change (inject_Z 1) with 1%Q.
    split; lra.
Qed.

Lemma Qdiv_le_cross (x y n d : Q) :
  (0 < y)%Q -> (0 < d)%Q -> (x * d <= n * y)%Q -> (x / y <= n / d)%Q.
Proof.
  intros Hy Hd H. apply Qle_shift_div_r; [exact Hy|].
  assert (E : (n / d * y == n * y / d)%Q) by (field; lra).
  rewrite E. apply Qle_shift_div_l; assumption.
Qed.

Lemma Qdiv_lt_cross (x y n d : Q) :
  (0 < y)%Q -> (0 < d)%Q -> (x * d < n * y)%Q -> (x / y < n / d)%Q.
Proof.
  intros Hy Hd H. apply Qlt_shift_div_r; [exact Hy|].
  assert (E : (n / d * y == n * y / d)%Q) by (field; lra).
  rewrite E. apply Qlt_shift_div_l; assumption.
Qed.

Lemma two_power_pos (k : Z) : (0 < 2 ^ k)%Q.
Proof. apply Qpower_0_lt. reflexivity. Qed.

Lemma two_power_diff (a b : Z) : (2 ^ (a - b) == 2 ^ a / 2 ^ b)%Q.
Proof. apply Qpower_minus. discriminate. Qed.

Lemma log2_bounds (n : Z) :
  0 < n ->
  (2 ^ Z.log2 n <= inject_Z n)%Q /\ (inject_Z n < 2 ^ (Z.log2 n + 1))%Q.
Proof.
  intros Hn. destruct (Z.log2_spec n Hn) as [Hlo Hhi].
  pose proof (Z.log2_nonneg n) as Hk.
  change 2%Q with (inject_Z 2).
  rewrite <- !Zpower_Qpower by lia. rewrite <- Zle_Qle, <- Zlt_Qlt.
  replace (Z.log2 n + 1) with (Z.succ (Z.log2 n)) by lia. auto.
Qed.

(** The exponent brackets a positive rational between two powers of 2, so
    the significand that [round53] rounds lies in [2^52, 2^53). *)
Lemma exponent_le (q : Q) : (0 < q)%Q -> (2 ^ exponent q <= q)%Q.
Proof.
  intros Hq. unfold exponent.
  destruct (Qle_bool _ q) eqn:Htest; [apply Qle_bool_iff, Htest|].
  destruct q as [n d]. cbn [Qnum Qden].
  assert (Hn : 0 < n) by (unfold Qlt in Hq; cbn in Hq; lia).
  destruct (log2_bounds n Hn) as [Hlo _].
  destruct (log2_bounds (Z.pos d) eq_refl) as [_ Hhi].
  replace (Z.log2 n - Z.log2 (Z.pos d) - 1)
    with (Z.log2 n - (Z.log2 (Z.pos d) + 1)) by lia.
  rewrite two_power_diff, (Qmake_Qdiv n d).
  pose proof (two_power_pos (Z.log2 n)).
  pose proof (two_power_pos (Z.log2 (Z.pos d) + 1)).
  assert (0 < inject_Z (Z.pos d))%Q by (change 0%Q with (inject_Z 0); rewrite <- Zlt_Qlt; lia).
  apply Qdiv_le_cross; try assumption. nra.
Qed.

Lemma exponent_lt (q : Q) : (0 < q)%Q -> (q < 2 ^ (exponent q + 1))%Q.
Proof.
  intros Hq. unfold exponent.
  destruct (Qle_bool _ q) eqn:Htest.
  - destruct q as [n d]. cbn [Qnum Qden].
    assert (Hn : 0 < n) by (unfold Qlt in Hq; cbn in Hq; lia).
    destruct (log2_bounds n Hn) as [_ Hhi].
    destruct (log2_bounds (Z.pos d) eq_refl) as [Hlo _].
    replace (Z.log2 n - Z.log2 (Z.pos d) + 1)
      with (Z.log2 n + 1 - Z.log2 (Z.pos d)) by lia.
    rewrite two_power_diff, (Qmake_Qdiv n d).
    pose proof (two_power_pos (Z.log2 n + 1)).
    pose proof (two_power_pos (Z.log2 (Z.pos d))).
    assert (0 < inject_Z (Z.pos d))%Q by (change 0%Q with (inject_Z 0); rewrite <- Zlt_Qlt; lia).
    assert (0 < inject_Z n)%Q by (change 0%Q with (inject_Z 0); rewrite <- Zlt_Qlt; lia).
    apply Qdiv_lt_cross; try assumption. nra.
  - replace (Z.log2 (Qnum q) - Z.log2 (Z.pos (Qden q)) - 1 + 1)
      with (Z.log2 (Qnum q) - Z.log2 (Z.pos (Qden q))) by lia.
    apply Qnot_le_lt. intros Hle. apply Qle_bool_iff in Hle. congruence.
Qed.

(** The standard model of floating-point arithmetic: rounding changes a
    number by at most 2^-53 of its magnitude. *)
Lemma round53_error (q : Q) :
  (Qabs (round53 q - q) <= Qabs q * (1 # 9007199254740992))%Q.
Proof.
  unfold round53. destruct (Qeq_bool q 0) eqn:Hzero.
  - apply Qeq_bool_iff in Hzero. rewrite Hzero. discriminate.
  - apply Qeq_bool_neq in Hzero.
    assert (Hpos : (0 < Qabs q)%Q).
    { destruct (Qlt_le_dec 0 (Qabs q)) as [H|H]; [exact H|].
      exfalso. apply Hzero. pose proof (Qabs_nonneg q).
      assert (E : (Qabs q == 0)%Q) by lra.
      revert E. apply Qabs_case; intros; lra. }
    set (e := exponent (Qabs q) - 52).
    pose proof (exponent_le (Qabs q) Hpos) as Hle.
    replace (exponent (Qabs q)) with (e + 52) in Hle by (subst e; lia).
    rewrite Qpower_plus in Hle by discriminate.
    change (2 ^ 52)%Q with 4503599627370496%Q in Hle.
    pose proof (two_power_pos e) as Hulp.
    set (ulp := (2 ^ e)%Q) in *.
    rewrite Qred_correct.
    pose proof (nearest_even_error (q / ulp)) as Herr.
    set (m := inject_Z (nearest_even (q / ulp))) in *.
    assert (E : (m * ulp - q == (m - q / ulp) * ulp)%Q) by (field; lra).
    rewrite E, Qabs_Qmult, (Qabs_pos ulp) by lra.
    pose proof (Qabs_nonneg (m - q / ulp)).
    nra.
Qed.

Lemma double_sub_error (a b : Q) :
  (Qabs (double_sub a b - (a - b)) <= Qabs (a - b) * (1 # 9007199254740992))%Q.
Proof. apply round53_error. Qed.

(** A rounded number of magnitude at most [bound] is within [bound * 2^-53]
    of the exact one. *)
Lemma round53_near (q bound : Q) :
  (Qabs q <= bound)%Q ->
  (q - bound * (1 # 9007199254740992) <= round53 q)%Q /\
  (round53 q <= q + bound * (1 # 9007199254740992))%Q.
Proof.
  intros Hb. pose proof (round53_error q) as H.
  apply Qabs_Qle_condition in H. destruct H as [Hlo Hhi].
  pose proof (Qabs_nonneg q). split; nra.
Qed.

(** ** Pixels and cells *)

Lemma Qfloor_succ (q : Q) : Qfloor (q + 1) = Qfloor q + 1.
Proof.
  destruct q as [n d]. unfold Qfloor, Qplus. cbn [Qnum Qden].
  rewrite Pos.mul_1_r, Z.mul_1_r, Z.mul_1_l.
  replace (n + Z.pos d) with (n + 1 * Z.pos d) by lia.
  apply Z.div_add. lia.
Qed.

Lemma cellOf_mono (a b : Q) : (a <= b)%Q -> cellOf a <= cellOf b.
Proof.
  intros H. unfold cellOf. apply Qfloor_resp_le.
  apply Qmult_le_compat_r; [exact H | discriminate].
Qed.

Lemma cellOf_comp (a b : Q) : (a == b)%Q -> cellOf a = cellOf b.
Proof.
  intros H. unfold cellOf. apply Qfloor_comp. rewrite H. reflexivity.
Qed.

Lemma cellOf_next (q : Q) : cellOf (q + 40) = cellOf q + 1.
Proof.
  unfold cellOf. rewrite <- Qfloor_succ. apply Qfloor_comp. field.
Qed.

Lemma cellOf_on_board (q : Q) : (0 <= q)%Q -> (q <= 360)%Q -> 0 <= cellOf q <= 9.
Proof.
  intros Hlo Hhi.
  apply cellOf_mono in Hlo. apply cellOf_mono in Hhi.
  change (cellOf 0) with 0 in Hlo. change (cellOf 360) with 9 in Hhi. lia.
Qed.

Lemma clamp_bounds (q : Q) :
  (0 <= Qmax 0 (Qmin q 360))%Q /\ (Qmax 0 (Qmin q 360) <= 360)%Q.
Proof.
  split.
  - apply Q.le_max_l.
  - apply Q.max_lub; [discriminate | apply Q.le_min_r].
Qed.

(** X10.  While a held piece is dragged over the mounted grid, a mouse move
    keeps the previewed position within [0, 360] on both axes, so the
    previewed origin cell is always on the board (0..9), and it sets the
    preview flag to the verdict of [checkValidPlacement] at that position;
    it sends nothing and leaves the held piece and the game state alone. *)
Theorem handleMouseMove_previews (e : MouseEvent) (st : App) (p : Piece) (rect : DOMRect) :
  isDragging (dragState st) = true -> currentPiece st = Some p ->
  gridRef st = Some rect ->
  exists st' : App,
    handleMouseMove e st = (Normal tt, st') /\
    (0 <= pos_x (piecePosition st') <= 360)%Q /\
    (0 <= pos_y (piecePosition st') <= 360)%Q /\
    0 <= cellOf (pos_x (piecePosition st')) <= 9 /\
    0 <= cellOf (pos_y (piecePosition st')) <= 9 /\
    fst (checkValidPlacement (shape p) (pos_x (piecePosition st'))
           (pos_y (piecePosition st')) st) = Normal (isValidPlacement st') /\
    currentPiece st' = currentPiece st /\ gameState st' = gameState st /\
    wsRef st' = wsRef st /\ dragState st' = dragState st.
Proof.
  intros Hdrag Hcp Hrect. unfold handleMouseMove, bind, gets.
  rewrite Hdrag, Hcp, Hrect. cbn -[checkValidPlacement cellOf Qmax Qmin Qminus].
  rewrite checkValidPlacement_run. cbn -[rows_free cellOf Qmax Qmin Qminus].
  eexists. split; [reflexivity|]. cbn -[rows_free cellOf Qmax Qmin Qminus].
  rewrite checkValidPlacement_run. cbn -[rows_free cellOf Qmax Qmin Qminus].
  pose proof (clamp_bounds (double_sub (double_sub (clientX e) (rect_left rect)) 20))
    as [Hx0 Hx1].
  pose proof (clamp_bounds (double_sub (double_sub (clientY e) (rect_top rect)) 20))
    as [Hy0 Hy1].
  repeat split; try assumption; try apply cellOf_on_board; assumption.
Qed.

(** What a release appends to the send log. *)
Lemma handleMouseUp_sent (e : MouseEvent) (st : App) :
  sent_log (snd (handleMouseUp e st)) =
  (sent_log st ++
   match isDragging (dragState st), currentPiece st, gridRef st, wsRef st with
   | true, Some p, Some rect, Some _ =>
       let x := double_sub (clientX e) (rect_left rect) in
       let y := double_sub (clientY e) (rect_top rect) in
       if rows_free (grid (gameState st)) x y 0 (shape p)
       then [place_piece (shape p) (cellOf x) (cellOf y) (color p)]
       else []
   | _, _, _, _ => []
   end)%list.
Proof.
  unfold sent_log. run_handler; try absurd_socket_guard; simplify_eq;
    cbn; rewrite ?app_nil_r; try reflexivity.
  all: match goal with H : _ && _ = _ |- _ => rewrite ?andb_true_r, ?andb_false_r in H end;
    congruence.
Qed.

(** The preview of a mouse point, 20 px up and left and clamped, is at most
    the point where a release is judged and less than a cell away from it,
    rounding included. *)
Lemma release_within_a_cell (a b : Q) :
  (20 <= a - b)%Q -> (a - b <= 380)%Q ->
  (Qmax 0 (Qmin (double_sub (double_sub a b) 20) 360) <= double_sub a b)%Q /\
  (double_sub a b <= Qmax 0 (Qmin (double_sub (double_sub a b) 20) 360) + 40)%Q.
Proof.
  intros Hlo Hhi. unfold double_sub.
  destruct (round53_near (a - b) 380) as [Hx0 Hx1].
  { apply Qabs_Qle_condition. split; lra. }
  set (x := round53 (a - b)) in *.
  destruct (round53_near (x - 20) 361) as [Hp0 Hp1].
  { apply Qabs_Qle_condition. split; lra. }
  set (p := round53 (x - 20)) in *.
  split.
  - apply Q.max_lub; [lra|]. eapply Qle_trans; [apply Q.le_min_l | lra].
  - eapply Qle_trans; [|apply Qplus_le_l, Q.le_max_r].
    destruct (Q.min_spec p 360) as [[_ ->] | [_ ->]]; lra.
Qed.

(** X11.  The preview is computed 20 px up and left of the point where a
    release is judged.  For a mouse point between 20 and 380 px from the
    grid's left and top edges, the cell coordinates a release at that point
    sends are those of the previewed origin cell or one more, on each
    axis. *)
Theorem release_near_preview (e : MouseEvent) (st : App) (p : Piece) (rect : DOMRect) :
  isDragging (dragState st) = true -> currentPiece st = Some p ->
  gridRef st = Some rect ->
  (20 <= clientX e - rect_left rect)%Q -> (clientX e - rect_left rect <= 380)%Q ->
  (20 <= clientY e - rect_top rect)%Q -> (clientY e - rect_top rect <= 380)%Q ->
  let preview := piecePosition (snd (handleMouseMove e st)) in
  sent_log (snd (handleMouseUp e st)) = sent_log st \/
  exists position_x position_y : Z,
    sent_log (snd (handleMouseUp e st)) =
      (sent_log st ++ [place_piece (shape p) position_x position_y (color p)])%list /\
    cellOf (pos_x preview) <= position_x <= cellOf (pos_x preview) + 1 /\
    cellOf (pos_y preview) <= position_y <= cellOf (pos_y preview) + 1.
Proof.
  intros Hdrag Hcp Hrect Hx0 Hx1 Hy0 Hy1 preview.
  rewrite handleMouseUp_sent, Hdrag, Hcp, Hrect.
  destruct (wsRef st) as [ws|]; [|left; apply app_nil_r].
  cbn zeta. destruct (rows_free _ _ _ _ _); [|left; apply app_nil_r].
  right. eexists _, _. split; [reflexivity|].
  subst preview. unfold handleMouseMove, bind, gets.
  rewrite Hdrag, Hcp, Hrect. cbn -[checkValidPlacement cellOf Qmax Qmin Qminus].
  rewrite checkValidPlacement_run. cbn -[rows_free cellOf Qmax Qmin Qminus].
  destruct (release_within_a_cell _ _ Hx0 Hx1) as [Hlx Hux].
  destruct (release_within_a_cell _ _ Hy0 Hy1) as [Hly Huy].
  apply cellOf_mono in Hlx, Hux, Hly, Huy.
  rewrite cellOf_next in Hux, Huy. lia.
Qed.

(** ** Pressing the mouse button *)

(** X12.  A mouse press starts a drag only while a piece is held: without
    one it does nothing; with one it records the press point, and over the
    mounted grid it puts the preview at a position that is never negative on
    either axis (and, unlike a mouse move, not bounded above).  It never
    sends, and it leaves the held piece and the game state alone. *)
Theorem handleMouseDown_starts_drag (e : MouseEvent) (st : App) :
  exists st' : App,
    handleMouseDown e st = (Normal tt, st') /\
    currentPiece st' = currentPiece st /\ gameState st' = gameState st /\
    wsRef st' = wsRef st /\
    match currentPiece st with
    | None => st' = st
    | Some _ =>
        dragState st' =
          {| isDragging := true; startX := clientX e; startY := clientY e |} /\
        match gridRef st with
        | Some _ =>
            (0 <= pos_x (piecePosition st'))%Q /\ (0 <= pos_y (piecePosition st'))%Q
        | None => piecePosition st' = piecePosition st
        end
    end.
Proof.
  unfold handleMouseDown, bind, gets.
  destruct (currentPiece st) as [p|] eqn:Hcp; cycle 1.
  { exists st. repeat split; assumption. }
  cbn -[Qmax Qminus]. destruct (gridRef st) as [rect|] eqn:Hrect.
  - eexists. split; [reflexivity|]. cbn -[Qmax Qminus].
    repeat split; try assumption; apply Q.le_max_l.
  - eexists. split; [reflexivity|]. cbn. repeat split; assumption.
Qed.

(** ** Rendering the grid *)

Lemma renderGrid_cols_run (st : App) (row : nat) (cells : list (option Cell)) :
  grid (gameState st) !! row = Some cells ->
  forall (fuel col : nat) (acc : list GridCellView),
    (10 - col < fuel)%nat ->
    renderGrid_cols fuel row col acc st =
    (Normal (acc ++ (grid_cell_view cells row <$> seq col (10 - col)))%list, st).
Proof.
  intros Hrow. induction fuel as [|fuel IH]; intros col acc Hfuel; [lia|].
  cbn [renderGrid_cols].
  destruct (Nat.ltb_spec col 10) as [Hlt|Hge].
  - unfold bind, gets. rewrite Hrow. rewrite IH by lia.
    replace (10 - col)%nat with (S (10 - S col)) by lia.
    cbn [seq fmap list_fmap]. rewrite <- app_assoc. reflexivity.
  - replace (10 - col)%nat with O by lia. cbn. rewrite app_nil_r. reflexivity.
Qed.

(** The elements of row [row], for a grid that has that row. *)
Lemma renderGrid_rows_run (st : App) :
  (10 <= length (grid (gameState st)))%nat ->
  forall (fuel row : nat) (acc : list GridCellView),
    (10 - row < fuel)%nat ->
    renderGrid_rows fuel row acc st =
    (Normal (acc ++
             concat ((fun r => grid_cell_view (default [] (grid (gameState st) !! r)) r
                               <$> seq 0 10) <$> seq row (10 - row)))%list, st).
Proof.
  intros Hlen. induction fuel as [|fuel IH]; intros row acc Hfuel; [lia|].
  cbn [renderGrid_rows].
  destruct (Nat.ltb_spec row 10) as [Hlt|Hge].
  - destruct (lookup_lt_is_Some_2 (grid (gameState st)) row) as [cells Hcells]; [lia|].
    unfold bind. rewrite (renderGrid_cols_run st row cells Hcells) by lia.
    rewrite IH by lia.
    replace (10 - row)%nat with (S (10 - S row)) by lia.
    cbn [seq fmap list_fmap concat]. rewrite Hcells. cbn [default].
    rewrite <- app_assoc. reflexivity.
  - replace (10 - row)%nat with O by lia. cbn. rewrite app_nil_r. reflexivity.
Qed.

Lemma renderGrid_rows_throw (st : App) :
  (length (grid (gameState st)) < 10)%nat ->
  forall (fuel row : nat) (acc : list GridCellView),
    (row <= length (grid (gameState st)))%nat ->
    (length (grid (gameState st)) - row < fuel)%nat ->
    renderGrid_rows fuel row acc st =
    (Throw "TypeError: gameState.grid[row] is undefined", st).
Proof.
  intros Hlen. induction fuel as [|fuel IH]; intros row acc Hrow Hfuel; [lia|].
  cbn [renderGrid_rows].
  destruct (Nat.ltb_spec row 10) as [Hlt|Hge]; [|lia].
  destruct (decide (row < length (grid (gameState st)))%nat) as [Hin|Hout].
  - destruct (lookup_lt_is_Some_2 (grid (gameState st)) row) as [cells Hcells]; [lia|].
    unfold bind. rewrite (renderGrid_cols_run st row cells Hcells) by lia.
    apply IH; lia.
  - assert (Hnone : grid (gameState st) !! row = None) by (apply lookup_ge_None; lia).
    unfold bind. cbn. unfold bind, gets. rewrite Hnone. reflexivity.
Qed.

(** X13.  [renderGrid] needs ten grid rows and nothing more.  With at least
    ten rows it returns exactly 100 elements in row-major order, element
    [10 * row + col] showing the colour of [grid[row][col]], or transparent
    when that cell is [null] or missing from a short row; rows beyond the
    tenth are ignored.  With fewer than ten rows it throws a TypeError. *)
Theorem renderGrid_hundred_cells (st : App) :
  ((10 <= length (grid (gameState st)))%nat ->
   exists views : list GridCellView,
     renderGrid st = (Normal views, st) /\
     length views = 100%nat /\
     forall (row col : nat) (cells : list (option Cell)),
       (row < 10)%nat -> (col < 10)%nat ->
       grid (gameState st) !! row = Some cells ->
       views !! (10 * row + col)%nat = Some (grid_cell_view cells row col)) /\
  ((length (grid (gameState st)) < 10)%nat ->
   renderGrid st = (Throw "TypeError: gameState.grid[row] is undefined", st)).
Proof.
  split.
  - intros Hlen. eexists. split.
    { unfold renderGrid. rewrite (renderGrid_rows_run st Hlen) by lia. reflexivity. }
    split; [reflexivity|].
    intros row col cells Hrow Hcol Hcells.
    do 10 (destruct row as [|row];
           [ cbn in Hcells |- *; rewrite Hcells;
             do 10 (destruct col as [|col]; [reflexivity|]); lia |]).
    lia.
  - intros Hlen. unfold renderGrid. apply renderGrid_rows_throw; lia.
Qed.

(** ** Rendering a piece *)

Lemma renderPiece_row_elem (view : nat -> PieceCellView) (row : list Z) :
  forall (colIndex : nat) (cells : list PieceCellView) (v : PieceCellView),
    v ∈ renderPiece_row view colIndex row cells <->
    v ∈ cells \/ exists c : nat, row !! c = Some 1 /\ v = view (colIndex + c)%nat.
Proof.
  induction row as [|cell rest IH]; intros colIndex cells v; cbn [renderPiece_row].
  - split; [auto | intros [H|(c & Hc & _)]; [exact H | discriminate Hc]].
  - rewrite IH. split.
    + intros [H|(c & Hc & ->)].
      * case_bool_decide as Hcell; [|auto].
        apply elem_of_app in H as [H|H]; [auto|].
        apply list_elem_of_singleton in H as ->. right. exists O.
        rewrite Nat.add_0_r. subst cell. auto.
      * right. exists (S c). split; [exact Hc | f_equal; lia].
    + intros [H|([|c] & Hc & ->)].
      * left. case_bool_decide; [apply elem_of_app|]; auto.
      * cbn in Hc. injection Hc as ->. left.
        rewrite bool_decide_eq_true_2 by reflexivity.
        apply elem_of_app. right. rewrite Nat.add_0_r. apply list_elem_of_singleton.
        reflexivity.
      * right. exists c. split; [exact Hc | f_equal; lia].
Qed.

Lemma renderPiece_rows_elem (view : nat -> nat -> PieceCellView) (rows : Shape) :
  forall (rowIndex : nat) (cells : list PieceCellView) (v : PieceCellView),
    v ∈ renderPiece_rows view rowIndex rows cells <->
    v ∈ cells \/
    exists r c : nat, filled rows r c /\ v = view (rowIndex + r)%nat c.
Proof.
  induction rows as [|row rest IH]; intros rowIndex cells v; cbn [renderPiece_rows].
  - split; [auto | intros [H|(r & c & (cs & Hr & _) & _)]; [exact H | discriminate Hr]].
  - rewrite IH, renderPiece_row_elem. split.
    + intros [[H|(c & Hc & ->)]|(r & c & (cs & Hr & Hc) & ->)].
      * auto.
      * right. exists O, c. split; [exists row; auto | rewrite Nat.add_0_r; reflexivity].
      * right. exists (S r), c. split; [exists cs; auto | f_equal; lia].
    + intros [H|([|r] & c & (cs & Hr & Hc) & ->)].
      * auto.
      * cbn in Hr. injection Hr as ->. left. right. exists c.
        rewrite Nat.add_0_r. auto.
      * right. exists r, c. split; [exists cs; auto | f_equal; lia].
Qed.

Lemma renderPiece_row_length (view : nat -> PieceCellView) (row : list Z) :
  forall (colIndex : nat) (cells : list PieceCellView),
    length (renderPiece_row view colIndex row cells) =
    (length cells + length (filter (fun cell : Z => (cell = 1)%Z) row))%nat.
Proof.
  induction row as [|cell rest IH]; intros colIndex cells; cbn [renderPiece_row].
  - cbn. lia.
  - rewrite IH, filter_cons. case_bool_decide as Hcell.
    + rewrite decide_True by exact Hcell. rewrite length_app. cbn. lia.
    + rewrite decide_False by exact Hcell. reflexivity.
Qed.

Lemma renderPiece_rows_length (view : nat -> nat -> PieceCellView) (rows : Shape) :
  forall (rowIndex : nat) (cells : list PieceCellView),
    length (renderPiece_rows view rowIndex rows cells) =
    (length cells + length (filter (fun cell : Z => (cell = 1)%Z) (concat rows)))%nat.
Proof.
  induction rows as [|row rest IH]; intros rowIndex cells; cbn [renderPiece_rows concat].
  - cbn. lia.
  - rewrite IH, renderPiece_row_length, filter_app, length_app. lia.
Qed.

(** X14.  [renderPiece] draws one element per filled sub-cell and nothing
    else: for a missing piece it returns [null]; otherwise the elements it
    returns are keyed by exactly the filled sub-cells of the shape, their
    number is the number of entries equal to 1, and the state is not
    touched. *)
Theorem renderPiece_one_per_filled (piece : option Piece) (position : Position)
    (className : string) (isNextPiece : bool) (st : App) :
  match piece with
  | None => renderPiece None position className isNextPiece st = (Normal None, st)
  | Some p =>
      exists views : list PieceCellView,
        renderPiece (Some p) position className isNextPiece st = (Normal (Some views), st) /\
        length views = length (filter (fun cell : Z => (cell = 1)%Z) (concat (shape p))) /\
        (forall r c : nat, filled (shape p) r c ->
           exists v : PieceCellView, v ∈ views /\ pv_row v = r /\ pv_col v = c) /\
        (forall v : PieceCellView, v ∈ views -> filled (shape p) (pv_row v) (pv_col v))
  end.
Proof.
  destruct piece as [p|]; [|reflexivity].
  eexists. split; [reflexivity|]. split; [|split].
  - rewrite renderPiece_rows_length. reflexivity.
  - intros r c Hrc. eexists. split.
    + apply renderPiece_rows_elem. right. exists r, c. split; [exact Hrc | reflexivity].
    + split; reflexivity.
  - intros v Hv. apply renderPiece_rows_elem in Hv as [Hv|(r & c & Hrc & ->)].
    + apply elem_of_nil in Hv. destruct Hv.
    + exact Hrc.
Qed.

(** X15.  The offered piece is drawn centred and inside its 120 px box: for
    a rectangular shape of at most 4 rows and 4 columns every element drawn
    in next-piece mode is 30 px wide and lies within [0, 120] on both axes,
    with equal margins left and right and top and bottom. *)
Theorem renderPiece_next_in_container (p : Piece) (rows cols : nat) (position : Position)
    (className : string) (st : App) :
  is_matrix rows cols (shape p) -> (0 < rows <= 4)%nat -> (cols <= 4)%nat ->
  exists views : list PieceCellView,
    renderPiece (Some p) position className true st = (Normal (Some views), st) /\
    forall v : PieceCellView, v ∈ views ->
      pv_size v = 30%Q /\
      (0 <= pv_left v)%Q /\ (pv_left v + pv_size v <= 120)%Q /\
      (0 <= pv_top v)%Q /\ (pv_top v + pv_size v <= 120)%Q /\
      (pv_left v - inject_Z (Z.of_nat (pv_col v)) * 30
       == 120 - (pv_left v + inject_Z (Z.of_nat (cols - pv_col v)) * 30))%Q /\
      (pv_top v - inject_Z (Z.of_nat (pv_row v)) * 30
       == 120 - (pv_top v + inject_Z (Z.of_nat (rows - pv_row v)) * 30))%Q.
Proof.
  intros Hm Hrows Hcols. eexists. split; [reflexivity|].
  intros v Hv. apply renderPiece_rows_elem in Hv as [Hv|(r & c & Hrc & ->)].
  { apply elem_of_nil in Hv. destruct Hv. }
  destruct Hrc as (cells & Hr & Hc).
  pose proof (width_matrix _ _ _ Hm ltac:(lia)) as Hw. unfold width in Hw.
  destruct Hm as [Hlen Hall].
  pose proof (Forall_lookup_1 _ _ _ _ Hall Hr) as Hcells. cbn beta in Hcells.
  pose proof (lookup_lt_Some _ _ _ Hr) as Hrlt.
  pose proof (lookup_lt_Some _ _ _ Hc) as Hclt.
  cbn [Nat.add pv_size pv_left pv_top pv_row pv_col piece_cell_view].
  rewrite Hw, Hlen.
  assert (Hc0 : (0 <= inject_Z (Z.of_nat c))%Q)
    by (change 0%Q with (inject_Z 0); rewrite <- Zle_Qle; lia).
  assert (Hr0 : (0 <= inject_Z (Z.of_nat r))%Q)
    by (change 0%Q with (inject_Z 0); rewrite <- Zle_Qle; lia).
  assert (Hc1 : (inject_Z (Z.of_nat c) + 1 <= inject_Z (Z.of_nat cols))%Q).
  { change 1%Q with (inject_Z 1). rewrite <- inject_Z_plus, <- Zle_Qle. lia. }
  assert (Hr1 : (inject_Z (Z.of_nat r) + 1 <= inject_Z (Z.of_nat rows))%Q).
  { change 1%Q with (inject_Z 1). rewrite <- inject_Z_plus, <- Zle_Qle. lia. }
  assert (Hc4 : (inject_Z (Z.of_nat cols) <= 4)%Q).
  { change 4%Q with (inject_Z 4). rewrite <- Zle_Qle. lia. }
  assert (Hr4 : (inject_Z (Z.of_nat rows) <= 4)%Q).
  { change 4%Q with (inject_Z 4). rewrite <- Zle_Qle. lia. }
  assert (Hcd : (inject_Z (Z.of_nat (cols - c)) ==
                 inject_Z (Z.of_nat cols) - inject_Z (Z.of_nat c))%Q).
  { rewrite Nat2Z.inj_sub by lia. unfold Z.sub.
    rewrite inject_Z_plus, inject_Z_opp. reflexivity. }
  assert (Hrd : (inject_Z (Z.of_nat (rows - r)) ==
                 inject_Z (Z.of_nat rows) - inject_Z (Z.of_nat r))%Q).
  { rewrite Nat2Z.inj_sub by lia. unfold Z.sub.
    rewrite inject_Z_plus, inject_Z_opp. reflexivity. }
  split; [reflexivity|].
  rewrite Hcd, Hrd.
  generalize dependent (inject_Z (Z.of_nat c)).
  generalize dependent (inject_Z (Z.of_nat r)).
  generalize dependent (inject_Z (Z.of_nat cols)).
  generalize dependent (inject_Z (Z.of_nat rows)).
  intros. unfold Qdiv. change (/ 2)%Q with (1 # 2)%Q.
  repeat split; first [lra | ring].
Qed.

(** ** The socket URL *)

Lemma replace_absent (pattern replacement s : string) :
  occurs pattern s = false -> replace pattern replacement s = s.
Proof.
  induction s as [|ch s IH]; cbn [occurs replace]; intros H;
    apply orb_false_iff in H as [Hp Hrest]; rewrite Hp; [reflexivity|].
  rewrite (IH Hrest). reflexivity.
Qed.

Lemma prefix_empty (s : string) : String.prefix "" s = true.
Proof. destruct s; reflexivity. Qed.

(** X16.  [WS_URL] swaps the scheme and keeps the rest: when the text after
    the scheme contains neither [http://] nor [https://], an [https://] URL
    becomes [wss://] plus the same text, an [http://] URL becomes [ws://]
    plus the same text, and a URL without either scheme is left unchanged. *)
Theorem WS_URL_of_scheme (rest : string) :
  occurs "http://" rest = false -> occurs "https://" rest = false ->
  WS_URL_of (String.append "https://" rest) = String.append "wss://" rest /\
  WS_URL_of (String.append "http://" rest) = String.append "ws://" rest /\
  WS_URL_of rest = rest.
Proof.
  intros Hhttp Hhttps. unfold WS_URL_of. repeat split.
  - cbv [String.append]. cbn. rewrite prefix_empty. cbv [String.append]. cbn.
    rewrite (replace_absent _ _ _ Hhttp). reflexivity.
  - cbv [String.append]. cbn. rewrite (replace_absent _ _ _ Hhttps).
    cbn. rewrite prefix_empty. cbv [String.append]. reflexivity.
  - rewrite (replace_absent _ _ _ Hhttps). apply replace_absent, Hhttp.
Qed.

(** Each [replace] acts once, on the first occurrence, wherever it is: a
    later [http://] in an [https://] URL is rewritten too. *)
Example WS_URL_of_nested :
  WS_URL_of "https://proxy/http://inner" = "wss://proxy/ws://inner".
Proof. reflexivity. Qed.

Lemma WS_URL_of_scheme_witness :
  occurs "http://" "boxfit.example:8001" = false /\
  occurs "https://" "boxfit.example:8001" = false /\
  WS_URL_of "https://boxfit.example:8001" = "wss://boxfit.example:8001" /\
  WS_URL_of "http://boxfit.example:8001" = "ws://boxfit.example:8001" /\
  WS_URL_of "boxfit.example:8001" = "boxfit.example:8001".
Proof.
  assert (H1 : occurs "http://" "boxfit.example:8001" = false) by reflexivity.
  assert (H2 : occurs "https://" "boxfit.example:8001" = false) by reflexivity.
  split; [exact H1|]. split; [exact H2|].
  exact (WS_URL_of_scheme "boxfit.example:8001" H1 H2).
Defined.

(** ** How the handlers compose *)

(** X17.  A drag outlives the piece.  When [piece_placed] arrives in
    mid-drag the held piece is cleared but the drag flag stays set, and in
    the resulting state a mouse move or release changes nothing at all, the
    drag flag included. *)
Theorem drag_survives_piece_placed (WS_URL : string) (st : App) (s : Socket)
    (g : Grid) (sc : Z) (np : option Piece) (e : MouseEvent) :
  wsRef st = Some s -> isDragging (dragState st) = true ->
  let st1 := dispatch WS_URL st (SocketMessage (piece_placed g sc np)) in
  currentPiece st1 = None /\ isDragging (dragState st1) = true /\
  dispatch WS_URL st1 (MouseUp e) = st1 /\
  dispatch WS_URL st1 (MouseMove e) = st1.
Proof.
  intros Hs Hdrag st1.
  assert (Hcp : currentPiece st1 = None).
  { subst st1. unfold dispatch, handler, bind, gets. rewrite Hs. reflexivity. }
  assert (Hd : isDragging (dragState st1) = true).
  { subst st1. unfold dispatch, handler, bind, gets. rewrite Hs. exact Hdrag. }
  assert (Hm : mounted st1) by apply rerender_mounted.
  split; [exact Hcp|]. split; [exact Hd|].
  unfold dispatch, handler, handleMouseUp, handleMouseMove, bind, gets.
  rewrite Hcp, Hd. cbn. rewrite rerender_same by exact Hm. split; reflexivity.
Qed.

Lemma dispatch_ClickGetPiece (WS_URL : string) (st : App) (p : Piece) (now : Z) :
  mounted st -> nextPiece (gameState st) = Some p ->
  dispatch WS_URL st (ClickGetPiece now) =
  snd (setCurrentPiece
         (fun _ => Some {| shape := shape p; color := color p; type := type p;
                           id := Some now |}) st).
Proof.
  intros Hm Hnext. unfold dispatch, handler, getNewPiece, bind, gets. rewrite Hnext.
  apply rerender_fields_same; [split; reflexivity | exact Hm].
Qed.

Lemma dispatch_MouseDown (WS_URL : string) (st : App) (p : Piece) (rect : DOMRect)
    (e : MouseEvent) :
  mounted st -> currentPiece st = Some p -> gridRef st = Some rect ->
  dispatch WS_URL st (MouseDown e) =
  snd (setPiecePosition
         {| pos_x := Qmax 0 (double_sub (double_sub (clientX e) (rect_left rect)) 20);
            pos_y := Qmax 0 (double_sub (double_sub (clientY e) (rect_top rect)) 20) |}
         (snd (setDragState
                 {| isDragging := true; startX := clientX e; startY := clientY e |} st))).
Proof.
  intros Hm Hcp Hrect. unfold dispatch, handler, handleMouseDown, bind, gets.
  rewrite Hcp. cbn -[Qmax Qminus]. rewrite Hrect.
  apply rerender_fields_same; [split; reflexivity|].
  unfold mounted, attach_gridRef in *. cbn. rewrite Hrect in Hm. exact Hm.
Qed.

Lemma handleMouseUp_keeps (e : MouseEvent) (st : App) :
  currentPiece (snd (handleMouseUp e st)) = currentPiece st /\
  gameState (snd (handleMouseUp e st)) = gameState st.
Proof.
  run_handler; try absurd_socket_guard; simplify_eq; split; assumption || reflexivity.
Qed.

(** X18.  Claim, press, release.  On the game screen, with an offered
    piece, a socket and the grid at [rect], claiming the piece, pressing the
    mouse and releasing it at a point whose offset from the grid, subtracted
    as doubles, [checkValidPlacement] approves sends exactly one message,
    [place_piece] with the offered shape and colour and the cell of that
    offset; the piece stays held, with the claim time as its id, until the
    server answers. *)
Theorem claim_press_release (WS_URL : string) (st : App) (p : Piece) (ws : Socket)
    (rect : DOMRect) (now : Z) (press release : MouseEvent) :
  isConnected st = true ->
  nextPiece (gameState st) = Some p -> wsRef st = Some ws ->
  gridRef st = Some rect ->
  let x := double_sub (clientX release) (rect_left rect) in
  let y := double_sub (clientY release) (rect_top rect) in
  fst (checkValidPlacement (shape p) x y st) = Normal true ->
  let st' := run WS_URL st [ClickGetPiece now; MouseDown press; MouseUp release] in
  sent_log st' =
    (sent_log st ++ [place_piece (shape p) (cellOf x) (cellOf y) (color p)])%list /\
  currentPiece st' =
    Some {| shape := shape p; color := color p; type := type p; id := Some now |} /\
  gameState st' = gameState st.
Proof.
  intros Hconn Hnext Hws Hrect x y Hok st'.
  assert (Hm : mounted st).
  { unfold mounted, attach_gridRef. rewrite Hconn, Hrect. reflexivity. }
  rewrite checkValidPlacement_run in Hok. cbn [fst] in Hok. injection Hok as Hok.
  subst st'. unfold run. cbn [foldl].
  rewrite (dispatch_ClickGetPiece WS_URL st p now Hm Hnext).
  rewrite (dispatch_MouseDown WS_URL _
             {| shape := shape p; color := color p; type := type p; id := Some now |}
             rect press) by (reflexivity || exact Hrect || exact Hm).
  set (st2 := snd (setPiecePosition _ _)).
  unfold dispatch. cbn [handler].
  destruct (rerender_fields st2 (snd (handleMouseUp release st2))) as (Hg & Hw & _ & Hc).
  destruct (handleMouseUp_keeps release st2) as [Hc2 Hg2].
  split; [|split].
  - unfold sent_log at 1. rewrite Hw. fold (sent_log (snd (handleMouseUp release st2))).
    rewrite handleMouseUp_sent. subst st2. unfold sent_log.
    cbn -[rows_free cellOf Qmax Qminus]. rewrite Hrect, Hws.
    fold x y. rewrite Hok. reflexivity.
  - rewrite Hc, Hc2. reflexivity.
  - rewrite Hg, Hg2. reflexivity.
Qed.

(** ** More invariants of reachable states *)

Lemma rerender_piecePosition (before after : App) :
  piecePosition (rerender before after) = piecePosition after.
Proof. unfold rerender. case_bool_decide; reflexivity. Qed.

Lemma dispatch_position_nonneg (WS_URL : string) (st : App) (ev : Event) :
  (0 <= pos_x (piecePosition st))%Q /\ (0 <= pos_y (piecePosition st))%Q ->
  (0 <= pos_x (piecePosition (dispatch WS_URL st ev)))%Q /\
  (0 <= pos_y (piecePosition (dispatch WS_URL st ev)))%Q.
Proof.
  intros Hpos. unfold dispatch. rewrite rerender_piecePosition.
  destruct ev; try destruct message; run_handler; try absurd_socket_guard;
    try exact Hpos; split; first [apply Q.le_max_l | discriminate].
Qed.

(** X19.  The preview position is never negative: in every state the page
    can reach both coordinates of [piecePosition] are at least 0. *)
Theorem position_never_negative (WS_URL : string) (st : App) :
  reachable WS_URL st ->
  (0 <= pos_x (piecePosition st))%Q /\ (0 <= pos_y (piecePosition st))%Q.
Proof.
  induction 1 as [|st ev _ IH _].
  - split; discriminate.
  - apply dispatch_position_nonneg, IH.
Qed.

Lemma dispatch_socket_url (WS_URL : string) (st : App) (ev : Event) :
  (forall s : Socket, wsRef st = Some s ->
     exists room name : string,
       room <> "" /\ name <> "" /\
       url s = WS_URL +:+ "/api/ws/" +:+ room +:+ "/" +:+ name) ->
  forall s : Socket, wsRef (dispatch WS_URL st ev) = Some s ->
    exists room name : string,
      room <> "" /\ name <> "" /\
      url s = WS_URL +:+ "/api/ws/" +:+ room +:+ "/" +:+ name.
Proof.
  intros Hinv s. unfold dispatch.
  destruct (rerender_fields st (snd (handler WS_URL ev st))) as (_ & -> & _).
  destruct ev; try destruct message; run_handler; try absurd_socket_guard;
    intros Hs; simplify_eq; cbn; eauto.
  match goal with
  | H : _ || _ || _ = false |- _ =>
      apply orb_false_iff in H as [H _]; apply orb_false_iff in H as [Hroom Hname]
  end.
  apply bool_decide_eq_false in Hroom, Hname. eauto.
Qed.

(** X20.  The client never connects with an empty room id or player name:
    in every state the page can reach, the socket's URL is
    [WS_URL/api/ws/room/name] for a non-empty room and a non-empty name. *)
Theorem socket_url_well_formed (WS_URL : string) (st : App) (s : Socket) :
  reachable WS_URL st -> wsRef st = Some s ->
  exists room name : string,
    room <> "" /\ name <> "" /\
    url s = WS_URL +:+ "/api/ws/" +:+ room +:+ "/" +:+ name.
Proof.
  intros Hreach. revert s. induction Hreach as [|st ev _ IH _].
  - intros s Hs. discriminate Hs.
  - apply dispatch_socket_url. exact IH.
Qed.

(** ** Server messages and closures *)

(** A server message never sends, never touches the connection, the
    drag, the preview or the refs, and changes the held piece only when it is
    [piece_placed] or [piece_rotated]; [player_joined] and [player_left]
    change nothing but the players map, and an unknown message type changes
    nothing at all. *)
Theorem onmessage_frame (captured : option Piece) (message : ServerMessage) (st : App) :
  exists st' : App,
    onmessage captured message st = (Normal tt, st') /\
    roomId st' = roomId st /\ playerName st' = playerName st /\
    isConnected st' = isConnected st /\ dragState st' = dragState st /\
    piecePosition st' = piecePosition st /\
    isValidPlacement st' = isValidPlacement st /\
    wsRef st' = wsRef st /\ gridRef st' = gridRef st /\
    connectToGame_currentPiece st' = connectToGame_currentPiece st /\
    match message with
    | game_state data => gameState st' = data /\ currentPiece st' = currentPiece st
    | player_joined ps | player_left ps =>
        players (gameState st') = ps /\ grid (gameState st') = grid (gameState st) /\
        score (gameState st') = score (gameState st) /\
        nextPiece (gameState st') = nextPiece (gameState st) /\
        currentPiece st' = currentPiece st
    | piece_placed _ _ _ => currentPiece st' = None
    | piece_rotated _ => gameState st' = gameState st
    | other_message _ => st' = st
    end.
Proof.
  destruct message; try destruct captured; eexists;
    (split; [reflexivity|]); cbn; repeat split.
Qed.

(** X21.  The other side of the captured closure: when the room id is
    edited on the join screen while a piece is held, the callback created by
    that render sees the piece, so in the session joined next a
    [piece_rotated] message does replace the held shape, keeping the colour,
    type and id. *)
Theorem piece_rotated_after_rename (WS_URL : string) (st : App) (p : Piece)
    (room : string) (s : Shape) :
  currentPiece st = Some p -> wsRef st = None ->
  room <> roomId st -> room <> "" -> playerName st <> "" ->
  currentPiece
    (run WS_URL st
       [ChangeRoomId room; ClickJoin; SocketOpen; SocketMessage (piece_rotated s)]) =
  Some {| shape := s; color := color p; type := type p; id := id p |}.
Proof.
  intros Hcp Hws Hroom Hne Hname. unfold run. cbn [foldl].
  assert (E1 : dispatch WS_URL st (ChangeRoomId room) =
    {| gameState := gameState st; roomId := room; playerName := playerName st;
       isConnected := isConnected st; currentPiece := Some p;
       dragState := dragState st; piecePosition := piecePosition st;
       isValidPlacement := isValidPlacement st; wsRef := None;
       gridRef := attach_gridRef st;
       connectToGame_currentPiece := Some p |}).
  { unfold dispatch, handler, setRoomId, modify, rerender. cbn.
    rewrite bool_decide_eq_false_2 by (intros [H _]; congruence).
    rewrite Hcp, Hws. reflexivity. }
  rewrite E1. clear E1.
  match goal with |- context [dispatch WS_URL ?st1 ClickJoin] =>
    assert (E2 : dispatch WS_URL st1 ClickJoin =
      {| gameState := gameState st; roomId := room; playerName := playerName st;
         isConnected := isConnected st; currentPiece := Some p;
         dragState := dragState st; piecePosition := piecePosition st;
         isValidPlacement := isValidPlacement st;
         wsRef := Some {| url := WS_URL +:+ "/api/ws/" +:+ room +:+ "/" +:+ playerName st;
                          sent := []; onmessage_currentPiece := Some p |};
         gridRef := attach_gridRef st; connectToGame_currentPiece := Some p |})
  end.
  { unfold dispatch, handler, joinGame, connectToGame, bind, gets, set_wsRef, modify, ret.
    cbn. repeat (case_bool_decide; try contradiction; cbn).
    apply rerender_fields_same; [split; reflexivity|].
    unfold mounted, attach_gridRef. cbn.
    destruct (isConnected st), (gridRef st); reflexivity. }
  rewrite E2. clear E2. reflexivity.
Qed.

(** X22.  Throughout the first session of a page load, that is in every
    state reached from the first render before the socket closes for the
    first time, a [piece_rotated] message leaves the whole client state as it
    was, whether or not a piece is held. *)
Theorem first_session_ignores_piece_rotated (WS_URL : string) (st : App) (s : Shape) :
  first_session_state WS_URL st ->
  dispatch WS_URL st (SocketMessage (piece_rotated s)) = st.
Proof.
  intros Hst.
  destruct (first_session_captures_nothing WS_URL st Hst) as (_ & Hws & _).
  unfold dispatch, handler, bind, gets.
  destruct (wsRef st) as [ws|] eqn:Hs.
  - rewrite (Hws ws eq_refl). cbn. eapply rerender_same, first_session_mounted, Hst.
  - cbn. eapply rerender_same, first_session_mounted, Hst.
Qed.

(** ** Witnesses for the properties above *)

Lemma local_events_keep_gameState_witness :
  let ev := MouseUp {| clientX := 145; clientY := 135 |} in
  (forall message : ServerMessage, ev <> SocketMessage message) /\
  gameState (dispatch "ws://host" draggingApp ev) = gameState draggingApp.
Proof.
  intros ev.
  assert (H : forall message : ServerMessage, ev <> SocketMessage message)
    by (intros message; discriminate).
  split; [exact H|].
  exact (local_events_keep_gameState "ws://host" draggingApp ev H).
Defined.

Lemma sent_log_grows_witness :
  let ev := MouseUp {| clientX := 145; clientY := 135 |} in
  ev <> SocketClose /\
  exists new : list ClientMessage,
    sent_log (dispatch "ws://host" draggingApp ev) = (sent_log draggingApp ++ new)%list /\
    (length new <= 1)%nat /\
    (new <> [] -> ev = ClickRotate \/ exists e : MouseEvent, ev = MouseUp e).
Proof.
  intros ev.
  assert (H : ev <> SocketClose) by discriminate.
  split; [exact H|].
  exact (sent_log_grows "ws://host" draggingApp ev H).
Defined.

Lemma reachable_drag_session :
  reachable "ws://host" (run "ws://host" initialApp (drag_session pieceT 1)).
Proof.
  unfold run, drag_session. cbn [foldl].
  repeat (apply reachable_step; [|vm_compute; reflexivity]).
  apply reachable_initial.
Defined.

Lemma reachable_release_session :
  reachable "ws://host" (run "ws://host" initialApp (release_session pieceT 1)).
Proof.
  unfold run, release_session, drag_session. cbn [foldl app].
  repeat (apply reachable_step; [|vm_compute; reflexivity]).
  apply reachable_initial.
Defined.

Lemma first_session_drag_session :
  first_session_state "ws://host" (run "ws://host" initialApp (drag_session pieceT 1)).
Proof.
  unfold run, drag_session. cbn [foldl].
  repeat (apply first_session_step; [| vm_compute; reflexivity | discriminate]).
  apply first_session_initial.
Defined.

Lemma joinGame_guarded_witness :
  (roomId draggingApp = "" \/ playerName draggingApp = "" \/
   is_Some (wsRef draggingApp)) /\
  joinGame "ws://host" draggingApp = (Normal tt, draggingApp).
Proof.
  assert (H : roomId draggingApp = "" \/ playerName draggingApp = "" \/
              is_Some (wsRef draggingApp)).
  { right. right. eexists. reflexivity. }
  split; [exact H|].
  exact (joinGame_guarded "ws://host" draggingApp H).
Defined.

Lemma connected_has_socket_witness :
  let st := run "ws://host" initialApp (release_session pieceT 1) in
  reachable "ws://host" st /\ isConnected st = true /\
  gridRef st = Some {| rect_left := 100; rect_top := 50 |} /\
  sent_log st = [place_piece (shape pieceT) 1 2 (color pieceT)] /\
  is_Some (wsRef st).
Proof.
  intros st.
  assert (H : isConnected st = true) by (vm_compute; reflexivity).
  split; [exact reachable_release_session|]. split; [exact H|].
  split; [vm_compute; reflexivity|]. split; [vm_compute; reflexivity|].
  exact (connected_has_socket "ws://host" st reachable_release_session H).
Defined.

Lemma position_never_negative_witness :
  let st := run "ws://host" initialApp (drag_session pieceT 1) in
  reachable "ws://host" st /\
  gridRef st = Some {| rect_left := 100; rect_top := 50 |} /\
  piecePosition st = {| pos_x := 25; pos_y := 65 |} /\
  (0 <= pos_x (piecePosition st))%Q /\ (0 <= pos_y (piecePosition st))%Q.
Proof.
  intros st. split; [exact reachable_drag_session|].
  split; [vm_compute; reflexivity|]. split; [vm_compute; reflexivity|].
  exact (position_never_negative "ws://host" st reachable_drag_session).
Defined.

Lemma socket_url_well_formed_witness :
  let st := run "ws://host" initialApp (release_session pieceT 1) in
  let s := {| url := "ws://host/api/ws/room/ann";
              sent := [place_piece (shape pieceT) 1 2 (color pieceT)];
              onmessage_currentPiece := None |} in
  reachable "ws://host" st /\ wsRef st = Some s /\
  exists room name : string,
    room <> "" /\ name <> "" /\
    url s = "ws://host" +:+ "/api/ws/" +:+ room +:+ "/" +:+ name.
Proof.
  intros st s.
  assert (H : wsRef st = Some s) by (vm_compute; reflexivity).
  split; [exact reachable_release_session|]. split; [exact H|].
  exact (socket_url_well_formed "ws://host" st s reachable_release_session H).
Defined.

Lemma first_session_ignores_piece_rotated_witness :
  let st := run "ws://host" initialApp (drag_session pieceT 1) in
  first_session_state "ws://host" st /\
  gridRef st = Some {| rect_left := 100; rect_top := 50 |} /\
  isDragging (dragState st) = true /\
  currentPiece st =
    Some {| shape := shape pieceT; color := color pieceT; type := type pieceT;
            id := Some 1 |} /\
  dispatch "ws://host" st (SocketMessage (piece_rotated (rotate (shape pieceT)))) = st.
Proof.
  intros st.
  split; [exact first_session_drag_session|].
  split; [vm_compute; reflexivity|]. split; [vm_compute; reflexivity|].
  split; [vm_compute; reflexivity|].
  exact (first_session_ignores_piece_rotated "ws://host" st (rotate (shape pieceT))
           first_session_drag_session).
Defined.

Lemma handleMouseMove_previews_witness :
  let e := {| clientX := 145; clientY := 135 |} in
  let p := {| shape := shape pieceT; color := color pieceT; type := type pieceT;
              id := Some 1700000000000 |} in
  let rect := {| rect_left := 100; rect_top := 50 |} in
  isDragging (dragState draggingApp) = true /\ currentPiece draggingApp = Some p /\
  gridRef draggingApp = Some rect /\
  exists st' : App,
    handleMouseMove e draggingApp = (Normal tt, st') /\
    (0 <= pos_x (piecePosition st') <= 360)%Q /\
    (0 <= pos_y (piecePosition st') <= 360)%Q /\
    0 <= cellOf (pos_x (piecePosition st')) <= 9 /\
    0 <= cellOf (pos_y (piecePosition st')) <= 9 /\
    fst (checkValidPlacement (shape p) (pos_x (piecePosition st'))
           (pos_y (piecePosition st')) draggingApp) = Normal (isValidPlacement st') /\
    currentPiece st' = currentPiece draggingApp /\
    gameState st' = gameState draggingApp /\
    wsRef st' = wsRef draggingApp /\ dragState st' = dragState draggingApp.
Proof.
  intros e p rect.
  assert (H1 : isDragging (dragState draggingApp) = true) by reflexivity.
  assert (H2 : currentPiece draggingApp = Some p) by reflexivity.
  assert (H3 : gridRef draggingApp = Some rect) by reflexivity.
  split; [exact H1|]. split; [exact H2|]. split; [exact H3|].
  exact (handleMouseMove_previews e draggingApp p rect H1 H2 H3).
Defined.

Lemma release_near_preview_witness :
  let e := {| clientX := 145; clientY := 135 |} in
  let p := {| shape := shape pieceT; color := color pieceT; type := type pieceT;
              id := Some 1700000000000 |} in
  let rect := {| rect_left := 100; rect_top := 50 |} in
  let preview := piecePosition (snd (handleMouseMove e draggingApp)) in
  isDragging (dragState draggingApp) = true /\ currentPiece draggingApp = Some p /\
  gridRef draggingApp = Some rect /\
  (20 <= clientX e - rect_left rect)%Q /\ (clientX e - rect_left rect <= 380)%Q /\
  (20 <= clientY e - rect_top rect)%Q /\ (clientY e - rect_top rect <= 380)%Q /\
  (sent_log (snd (handleMouseUp e draggingApp)) = sent_log draggingApp \/
   exists position_x position_y : Z,
     sent_log (snd (handleMouseUp e draggingApp)) =
       (sent_log draggingApp ++
        [place_piece (shape p) position_x position_y (color p)])%list /\
     cellOf (pos_x preview) <= position_x <= cellOf (pos_x preview) + 1 /\
     cellOf (pos_y preview) <= position_y <= cellOf (pos_y preview) + 1).
Proof.
  intros e p rect preview.
  assert (H1 : isDragging (dragState draggingApp) = true) by reflexivity.
  assert (H2 : currentPiece draggingApp = Some p) by reflexivity.
  assert (H3 : gridRef draggingApp = Some rect) by reflexivity.
  assert (H4 : (20 <= clientX e - rect_left rect)%Q) by (vm_compute; discriminate).
  assert (H5 : (clientX e - rect_left rect <= 380)%Q) by (vm_compute; discriminate).
  assert (H6 : (20 <= clientY e - rect_top rect)%Q) by (vm_compute; discriminate).
  assert (H7 : (clientY e - rect_top rect <= 380)%Q) by (vm_compute; discriminate).
  repeat (split; [assumption|]).
  exact (release_near_preview e draggingApp p rect H1 H2 H3 H4 H5 H6 H7).
Defined.

Lemma renderPiece_next_in_container_witness :
  let position := {| pos_x := 0; pos_y := 0 |} in
  is_matrix 2 3 (shape pieceT) /\ (0 < 2 <= 4)%nat /\ (3 <= 4)%nat /\
  exists views : list PieceCellView,
    renderPiece (Some pieceT) position "" true draggingApp =
      (Normal (Some views), draggingApp) /\
    forall v : PieceCellView, v ∈ views ->
      pv_size v = 30%Q /\
      (0 <= pv_left v)%Q /\ (pv_left v + pv_size v <= 120)%Q /\
      (0 <= pv_top v)%Q /\ (pv_top v + pv_size v <= 120)%Q /\
      (pv_left v - inject_Z (Z.of_nat (pv_col v)) * 30
       == 120 - (pv_left v + inject_Z (Z.of_nat (3 - pv_col v)) * 30))%Q /\
      (pv_top v - inject_Z (Z.of_nat (pv_row v)) * 30
       == 120 - (pv_top v + inject_Z (Z.of_nat (2 - pv_row v)) * 30))%Q.
Proof.
  intros position.
  assert (H1 : is_matrix 2 3 (shape pieceT)).
  { split; [reflexivity|].
    repeat first [apply Forall_nil_2 | apply Forall_cons_2; [reflexivity|]]. }
  assert (H2 : (0 < 2 <= 4)%nat) by lia.
  assert (H3 : (3 <= 4)%nat) by lia.
  split; [exact H1|]. split; [exact H2|]. split; [exact H3|].
  exact (renderPiece_next_in_container pieceT 2 3 position "" draggingApp H1 H2 H3).
Defined.

Lemma drag_survives_piece_placed_witness :
  let s := {| url := "ws://host/api/ws/room/ann"; sent := [];
              onmessage_currentPiece := None |} in
  let e := {| clientX := 145; clientY := 135 |} in
  let st1 := dispatch "ws://host" draggingApp
               (SocketMessage (piece_placed sampleGrid 8 (Some pieceT))) in
  wsRef draggingApp = Some s /\ isDragging (dragState draggingApp) = true /\
  currentPiece st1 = None /\ isDragging (dragState st1) = true /\
  dispatch "ws://host" st1 (MouseUp e) = st1 /\
  dispatch "ws://host" st1 (MouseMove e) = st1.
Proof.
  intros s e st1.
  assert (H1 : wsRef draggingApp = Some s) by reflexivity.
  assert (H2 : isDragging (dragState draggingApp) = true) by reflexivity.
  split; [exact H1|]. split; [exact H2|].
  exact (drag_survives_piece_placed "ws://host" draggingApp s sampleGrid 8
           (Some pieceT) e H1 H2).
Defined.

Lemma claim_press_release_witness :
  let ws := {| url := "ws://host/api/ws/room/ann"; sent := [];
               onmessage_currentPiece := None |} in
  let rect := {| rect_left := 100; rect_top := 50 |} in
  let press := {| clientX := 120; clientY := 130 |} in
  let release := {| clientX := 145; clientY := 135 |} in
  let x := double_sub (clientX release) (rect_left rect) in
  let y := double_sub (clientY release) (rect_top rect) in
  let st' := run "ws://host" draggingApp
               [ClickGetPiece 5; MouseDown press; MouseUp release] in
  isConnected draggingApp = true /\
  nextPiece (gameState draggingApp) = Some pieceT /\ wsRef draggingApp = Some ws /\
  gridRef draggingApp = Some rect /\
  fst (checkValidPlacement (shape pieceT) x y draggingApp) = Normal true /\
  sent_log st' =
    (sent_log draggingApp ++
     [place_piece (shape pieceT) (cellOf x) (cellOf y) (color pieceT)])%list /\
  currentPiece st' =
    Some {| shape := shape pieceT; color := color pieceT; type := type pieceT;
            id := Some 5 |} /\
  gameState st' = gameState draggingApp.
Proof.
  intros ws rect press release x y st'.
  assert (H0 : isConnected draggingApp = true) by reflexivity.
  assert (H1 : nextPiece (gameState draggingApp) = Some pieceT) by reflexivity.
  assert (H2 : wsRef draggingApp = Some ws) by reflexivity.
  assert (H3 : gridRef draggingApp = Some rect) by reflexivity.
  assert (H4 : fst (checkValidPlacement (shape pieceT) x y draggingApp) = Normal true)
    by reflexivity.
  repeat (split; [assumption|]).
  exact (claim_press_release "ws://host" draggingApp pieceT ws rect 5 press release
           H0 H1 H2 H3 H4).
Defined.

Lemma piece_rotated_after_rename_witness :
  let st := {| gameState := gameState draggingApp; roomId := "room";
               playerName := "ann"; isConnected := false;
               currentPiece := Some pieceT; dragState := dragState initialApp;
               piecePosition := piecePosition initialApp; isValidPlacement := true;
               wsRef := None; gridRef := None;
               connectToGame_currentPiece := None |} in
  currentPiece st = Some pieceT /\ wsRef st = None /\
  "room2" <> roomId st /\ "room2" <> "" /\ playerName st <> "" /\
  currentPiece
    (run "ws://host" st
       [ChangeRoomId "room2"; ClickJoin; SocketOpen;
        SocketMessage (piece_rotated (rotate (shape pieceT)))]) =
  Some {| shape := rotate (shape pieceT); color := color pieceT; type := type pieceT;
          id := id pieceT |}.
Proof.
  intros st.
  assert (H1 : currentPiece st = Some pieceT) by reflexivity.
  assert (H2 : wsRef st = None) by reflexivity.
  assert (H3 : "room2" <> roomId st) by discriminate.
  assert (H4 : "room2" <> "") by discriminate.
  assert (H5 : playerName st <> "") by discriminate.
  repeat (split; [assumption|]).
  exact (piece_rotated_after_rename "ws://host" st pieceT "room2"
           (rotate (shape pieceT)) H1 H2 H3 H4 H5).
Defined.
